(** * Cart-pole dynamics of [ilqr/examples/cartpole.py]

    A shallow embedding of [CartpoleDynamics]: the symbolic transition
    function built by [__init__] and the two state conversions
    [augment_state] and [reduce_state].

    Numbers.  The source computes with float64 ([T.dscalar], numpy arrays).
    They are idealised here as real numbers [R]: no rounding, no infinities,
    no NaN, and one zero; the sign of a zero, which [np.arctan2] reads, is
    kept in the module [ieee].  Division is [Rdiv], whose value at a zero divisor is a
    convention of the library; every theorem whose truth would depend on
    that convention carries the hypotheses that keep the divisors nonzero.

    Arrays.  A numpy array is a [Scalar] (ndim 0), a [Vector] (ndim 1) or a
    [Matrix] (ndim 2); arrays of three and more dimensions, which the batch
    branch of the conversions also accepts, are not modelled.  Python
    exceptions are the [Raise] results of an error monad. *)

From Stdlib Require Import ZArith Reals Lra String List Bool Arith Lia.
Import ListNotations.

Local Open Scope R_scope.

(** ** Exceptions *)

Inductive exn : Type :=
| ValueError      (* unpacking a wrong number of values, hstack shape mismatch *)
| IndexError      (* index out of bounds, too many indices *)
| TypeError       (* iteration over a 0-d array *)
| MissingInput.   (* a symbolic variable that no input binds *)

Inductive result (A : Type) : Type :=
| Ok (a : A)
| Raise (e : exn).

Arguments Ok {A} a.
Arguments Raise {A} e.

Definition bind {A B : Type} (r : result A) (k : A -> result B) : result B :=
  match r with
  | Ok a => k a
  | Raise e => Raise e
  end.

Definition fmap {A B : Type} (g : A -> B) (r : result A) : result B :=
  bind r (fun a => Ok (g a)).

Declare Scope result_scope.
Delimit Scope result_scope with result.
Notation "x <- r ;; k" := (bind r (fun x => k))
  (at level 61, r at next level, right associativity) : result_scope.
Local Open Scope result_scope.

Definition is_ok {A : Type} (r : result A) : bool :=
  match r with Ok _ => true | Raise _ => false end.

(** ** The numeric layer *)

(** [np.arctan2(y, x)] on real numbers: the angle of the point [(x, y)],
    in [(-PI, PI]]; [Ratan2 0 0 = 0] as in C's [atan2] at positive zeros.
    The real numbers have one zero; what [np.arctan2] returns at a negative
    zero is in [ieee.arctan2]. *)
Definition Ratan2 (y x : R) : R :=
  if Rlt_dec 0 x then atan (y / x)
  else if Rlt_dec x 0 then
    if Rle_dec 0 y then atan (y / x) + PI else atan (y / x) - PI
  else if Rlt_dec 0 y then PI / 2
  else if Rlt_dec y 0 then - (PI / 2)
  else 0.

Module np.

(** An array of at most two dimensions.  [Matrix ncols rows] has shape
    [(length rows, ncols)].  The source runs its batch branch for every
    [ndim] other than 1, also for three and more dimensions; those arrays
    are outside this type. *)
Inductive ndarray : Type :=
| Scalar (a : R)
| Vector (v : list R)
| Matrix (ncols : nat) (rows : list (list R)).

Definition ndim (a : ndarray) : nat :=
  match a with
  | Scalar _ => 0
  | Vector _ => 1
  | Matrix _ _ => 2
  end.

(** Every row of a 2-D array has as many entries as the array has columns. *)
Definition well_shaped (a : ndarray) : Prop :=
  match a with
  | Matrix ncols rows => Forall (fun r => length r = ncols) rows
  | _ => True
  end.

(** Python iteration over an array, as used by tuple unpacking. *)
Definition iter (a : ndarray) : result (list ndarray) :=
  match a with
  | Scalar _ => Raise TypeError
  | Vector v => Ok (map Scalar v)
  | Matrix _ rows => Ok (map Vector rows)
  end.

(** [a[:, k]] *)
Definition column (a : ndarray) (k : nat) : result ndarray :=
  match a with
  | Matrix ncols rows =>
      if (k <? ncols)%nat then Ok (Vector (map (fun r => nth k r 0) rows))
      else Raise IndexError
  | _ => Raise IndexError
  end.

(** [a.reshape(-1, 1)] *)
Definition reshape_column (a : ndarray) : ndarray :=
  match a with
  | Scalar a => Matrix 1 [[a]]
  | Vector v => Matrix 1 (map (fun a => [a]) v)
  | Matrix _ rows => Matrix 1 (map (fun a => [a]) (concat rows))
  end.

(** A unary ufunc ([np.sin], [np.cos]) applies entry by entry. *)
Definition ufunc1 (g : R -> R) (a : ndarray) : ndarray :=
  match a with
  | Scalar a => Scalar (g a)
  | Vector v => Vector (map g v)
  | Matrix ncols rows => Matrix ncols (map (map g) rows)
  end.

Fixpoint zip_with (g : R -> R -> R) (v w : list R) : list R :=
  match v, w with
  | a :: v', b :: w' => g a b :: zip_with g v' w'
  | _, _ => []
  end.

Fixpoint zip_rows (g : R -> R -> R) (r s : list (list R)) : list (list R) :=
  match r, s with
  | v :: r', w :: s' => zip_with g v w :: zip_rows g r' s'
  | _, _ => []
  end.

(** A binary ufunc ([np.arctan2]) on two arrays of one shape, or with a
    scalar operand.  The operands of this program are always taken from
    the same state and so have one shape; broadcasting between other
    unequal shapes is not modelled and is reported as [ValueError]. *)
Definition ufunc2 (g : R -> R -> R) (a b : ndarray) : result ndarray :=
  match a, b with
  | Scalar a, _ => Ok (ufunc1 (g a) b)
  | _, Scalar b => Ok (ufunc1 (fun a => g a b) a)
  | Vector v, Vector w =>
      if (length v =? length w)%nat then Ok (Vector (zip_with g v w))
      else Raise ValueError
  | Matrix n r, Matrix m s =>
      if ((n =? m) && (length r =? length s))%nat
      then Ok (Matrix n (zip_rows g r s))
      else Raise ValueError
  | _, _ => Raise ValueError
  end.

Definition sin : ndarray -> ndarray := ufunc1 Rtrigo_def.sin.
Definition cos : ndarray -> ndarray := ufunc1 Rtrigo_def.cos.
Definition arctan2 : ndarray -> ndarray -> result ndarray := ufunc2 Ratan2.

Definition atleast_1d (a : ndarray) : ndarray :=
  match a with
  | Scalar a => Vector [a]
  | _ => a
  end.

(** [np.concatenate(arrs, 0)] for 1-D arrays. *)
Fixpoint concatenate0 (arrs : list ndarray) : result (list R) :=
  match arrs with
  | [] => Ok []
  | Vector v :: rest => w <- concatenate0 rest ;; Ok (v ++ w)
  | _ :: _ => Raise ValueError
  end.

Fixpoint append_rows (r s : list (list R)) : list (list R) :=
  match r, s with
  | v :: r', w :: s' => (v ++ w) :: append_rows r' s'
  | _, _ => []
  end.

(** [np.concatenate(arrs, 1)] for 2-D arrays of [nrows] rows each. *)
Fixpoint concatenate1 (nrows : nat) (arrs : list ndarray)
  : result (nat * list (list R)) :=
  match arrs with
  | [] => Ok (0%nat, repeat [] nrows)
  | Matrix ncols rows :: rest =>
      if (length rows =? nrows)%nat
      then p <- concatenate1 nrows rest ;;
           Ok ((ncols + fst p)%nat, append_rows rows (snd p))
      else Raise ValueError
  | _ :: _ => Raise ValueError
  end.

(** [np.hstack(tup)]: 1-D arrays are joined end to end, 2-D arrays column
    block by column block. *)
Definition hstack (tup : list ndarray) : result ndarray :=
  let arrs := map atleast_1d tup in
  match arrs with
  | [] => Raise ValueError
  | Vector _ :: _ => fmap Vector (concatenate0 arrs)
  | Matrix _ rows :: _ =>
      fmap (fun p => Matrix (fst p) (snd p))
           (concatenate1 (length rows) arrs)
  | Scalar _ :: _ => Raise ValueError
  end.

End np.

Import np (ndarray, Scalar, Vector, Matrix).

(** ** State conversions *)

(** [a, b, c, d = items] *)
Definition unpack4 (items : list ndarray)
  : result (ndarray * ndarray * ndarray * ndarray) :=
  match items with
  | [a; b; c; d] => Ok (a, b, c, d)
  | _ => Raise ValueError
  end.

(** [a, b, c, d, e = items] *)
Definition unpack5 (items : list ndarray)
  : result (ndarray * ndarray * ndarray * ndarray * ndarray) :=
  match items with
  | [a; b; c; d; e] => Ok (a, b, c, d, e)
  | _ => Raise ValueError
  end.

(** [state[:, k].reshape(-1, 1)] *)
Definition column_of (state : ndarray) (k : nat) : result ndarray :=
  fmap np.reshape_column (np.column state k).

(** [CartpoleDynamics.augment_state]:
    [[x, x', theta, theta'] -> [x, x', sin(theta), cos(theta), theta']]. *)
Definition augment_state (state : ndarray) : result ndarray :=
  vars <- (if (np.ndim state =? 1)%nat
           then items <- np.iter state ;; unpack4 items
           else x <- column_of state 0 ;;
                x_dot <- column_of state 1 ;;
                theta <- column_of state 2 ;;
                theta_dot <- column_of state 3 ;;
                Ok (x, x_dot, theta, theta_dot)) ;;
  let '(x, x_dot, theta, theta_dot) := vars in
  np.hstack [x; x_dot; np.sin theta; np.cos theta; theta_dot].

(** [CartpoleDynamics.reduce_state]:
    [[x, x', sin(theta), cos(theta), theta'] -> [x, x', theta, theta']]. *)
Definition reduce_state (state : ndarray) : result ndarray :=
  vars <- (if (np.ndim state =? 1)%nat
           then items <- np.iter state ;; unpack5 items
           else x <- column_of state 0 ;;
                x_dot <- column_of state 1 ;;
                sin_theta <- column_of state 2 ;;
                cos_theta <- column_of state 3 ;;
                theta_dot <- column_of state 4 ;;
                Ok (x, x_dot, sin_theta, cos_theta, theta_dot)) ;;
  let '(x, x_dot, sin_theta, cos_theta, theta_dot) := vars in
  theta <- np.arctan2 sin_theta cos_theta ;;
  np.hstack [x; x_dot; theta; theta_dot].

(** The 1-row batch [[s]] of a vector [s]. *)
Definition batch1 (a : ndarray) : ndarray :=
  match a with
  | Vector v => Matrix (length v) [v]
  | _ => a
  end.

(** ** The symbolic layer *)

Module T.

(** A scalar symbolic expression, as [theano.tensor] builds it. *)
Inductive tensor : Type :=
| dscalar (name : string)
| constant (c : R)
| add (a b : tensor)
| sub (a b : tensor)
| mul (a b : tensor)
| true_div (a b : tensor)
| pow (a : tensor) (n : nat)
| sin (a : tensor)
| cos (a : tensor)
| tanh (a : tensor)
| arctan2 (a b : tensor).

Definition env : Type := list (string * R).

Fixpoint lookup (name : string) (e : env) : result R :=
  match e with
  | [] => Raise MissingInput
  | (n, v) :: e' => if String.eqb name n then Ok v else lookup name e'
  end.

(** The value of an expression once its variables are bound. *)
Fixpoint eval (e : env) (t : tensor) : result R :=
  match t with
  | dscalar name => lookup name e
  | constant c => Ok c
  | add a b => v <- eval e a ;; w <- eval e b ;; Ok (v + w)
  | sub a b => v <- eval e a ;; w <- eval e b ;; Ok (v - w)
  | mul a b => v <- eval e a ;; w <- eval e b ;; Ok (v * w)
  | true_div a b => v <- eval e a ;; w <- eval e b ;; Ok (v / w)
  | pow a n => v <- eval e a ;; Ok (v ^ n)
  | sin a => v <- eval e a ;; Ok (Rtrigo_def.sin v)
  | cos a => v <- eval e a ;; Ok (Rtrigo_def.cos v)
  | tanh a => v <- eval e a ;; Ok (Rtrigo_def.tanh v)
  | arctan2 a b => v <- eval e a ;; w <- eval e b ;; Ok (Ratan2 v w)
  end.

(** [T.stack([...])] evaluates component by component. *)
Fixpoint eval_stack (e : env) (ts : list tensor) : result (list R) :=
  match ts with
  | [] => Ok []
  | t :: ts' => v <- eval e t ;; vs <- eval_stack e ts' ;; Ok (v :: vs)
  end.

(** Positional binding of input variables to values. *)
Fixpoint bind_inputs (inputs : list tensor) (values : list R) : result env :=
  match inputs, values with
  | [], [] => Ok []
  | dscalar name :: inputs', v :: values' =>
      e <- bind_inputs inputs' values' ;; Ok ((name, v) :: e)
  | _, _ => Raise TypeError
  end.

End T.

Import T (tensor).

Coercion T.constant : R >-> tensor.

Declare Scope tensor_scope.
Delimit Scope tensor_scope with T.
Bind Scope tensor_scope with tensor.
Infix "+" := T.add : tensor_scope.
Infix "-" := T.sub : tensor_scope.
Infix "*" := T.mul : tensor_scope.
Infix "/" := T.true_div : tensor_scope.
Notation "a ** n" := (T.pow a n) (at level 30, right associativity) : tensor_scope.

(** Modelled from the spec: [tensor_constrain] of [ilqr.dynamics], imported by
    the source but not part of it.  The spec describes it as a smooth
    saturation that maps an unbounded control into the bounded interval given
    by [min_bounds] and [max_bounds], strictly inside it.  [tensor_constrain]
    builds the expression, [squash] is the function of the control's value
    that the expression denotes. *)
Class Squashing : Type := {
  tensor_constrain : tensor -> R -> R -> tensor;
  squash : R -> R -> R -> R;
  tensor_constrain_eval : forall e t lo hi,
    T.eval e (tensor_constrain t lo hi)
    = (v <- T.eval e t ;; Ok (squash v lo hi));
  squash_interior : forall v lo hi,
    lo < hi -> lo < squash v lo hi < hi
}.

(** A squashing that meets this contract: the hyperbolic tangent, scaled to
    the interval.  It shows that the contract can be met and serves the
    concrete runs. *)
Definition tanh_constrain (u : tensor) (min_bounds max_bounds : R) : tensor :=
  let diff := (max_bounds - min_bounds) / 2 in
  let mean := (max_bounds + min_bounds) / 2 in
  (diff * T.tanh u + mean)%T.

Definition tanh_squash (v min_bounds max_bounds : R) : R :=
  (max_bounds - min_bounds) / 2 * tanh v + (max_bounds + min_bounds) / 2.

Definition tanh_squashing : Squashing.
Proof.
  refine {| tensor_constrain := tanh_constrain; squash := tanh_squash |}.
  - intros e t lo hi. cbn. destruct (T.eval e t); reflexivity.
  - intros v lo hi Hlt. unfold tanh_squash.
    assert (Hb : - 1 < tanh v < 1).
    { unfold tanh, sinh, cosh.
      pose proof (exp_pos v) as Ha. pose proof (exp_pos (- v)) as Hb.
      set (a := exp v) in *. set (b := exp (- v)) in *.
      set (t := (a - b) / 2 / ((a + b) / 2)).
      assert (Ht : t * (a + b) = a - b) by (unfold t; field; lra).
      split; nra. }
    split; nra.
Defined.

(** Modelled from the spec: the wrapper [AutoDiffDynamics] of [ilqr.dynamics],
    which takes the symbolic transition function with its state and control
    inputs and evaluates it at a state [x] and a control [u]. *)
Module AutoDiffDynamics.

Record t : Type := {
  f_expr : list tensor;
  x_inputs : list tensor;
  u_inputs : list tensor
}.

Definition f (m : t) (x u : list R) : result (list R) :=
  e <- T.bind_inputs (x_inputs m ++ u_inputs m) (x ++ u) ;;
  T.eval_stack e (f_expr m).

End AutoDiffDynamics.

(** ** The dynamics builder, [CartpoleDynamics.__init__] *)

Module CartpoleDynamics.

Record t : Type := {
  constrained : bool;
  min_bounds : R;
  max_bounds : R;
  dynamics : AutoDiffDynamics.t
}.

Section Init.

Context {squashing : Squashing}.
Variables (dt : R) (constrain : bool) (min_bounds max_bounds : R).
Variables (mc mp l g : R).

(* Define inputs. *)
Definition x : tensor := T.dscalar "x".
Definition x_dot : tensor := T.dscalar "x_dot".
Definition sin_theta : tensor := T.dscalar "sin_theta".
Definition cos_theta : tensor := T.dscalar "cos_theta".
Definition theta_dot : tensor := T.dscalar "theta_dot".
Definition u : tensor := T.dscalar "u".

Definition x_inputs : list tensor :=
  [x; x_dot; sin_theta; cos_theta; theta_dot].
Definition u_inputs : list tensor := [u].

(* Constrain action space. *)
Definition F : tensor :=
  if constrain then tensor_constrain u min_bounds max_bounds else u.

(* Eq. (23) *)
(* [mp * l], [mc + mp] and [4.0 / 3.0] are products, sums and quotients of
   Python floats, computed before the expression is built. *)
Definition temp : tensor :=
  (F + (mp * l)%R * theta_dot ** 2 * sin_theta) / (mc + mp)%R.
Definition numerator : tensor :=
  g * sin_theta - cos_theta * temp.
Definition denominator : tensor :=
  l * ((4 / 3)%R - mp * cos_theta ** 2 / (mc + mp)%R).
Definition theta_dot_dot : tensor :=
  numerator / denominator.

(* Eq. (24) *)
Definition x_dot_dot : tensor :=
  temp - (mp * l)%R * theta_dot_dot * cos_theta / (mc + mp)%R.

(* Deaugment state for dynamics. *)
Definition theta : tensor := T.arctan2 sin_theta cos_theta.
Definition next_theta : tensor := theta + theta_dot * dt.

Definition f : list tensor :=
  [ x + x_dot * dt;
    x_dot + x_dot_dot * dt;
    T.sin next_theta;
    T.cos next_theta;
    theta_dot + theta_dot_dot * dt ]%T.

Definition __init__ : t :=
  {| constrained := constrain;
     CartpoleDynamics.min_bounds := min_bounds;
     CartpoleDynamics.max_bounds := max_bounds;
     dynamics := {| AutoDiffDynamics.f_expr := f;
                    AutoDiffDynamics.x_inputs := x_inputs;
                    AutoDiffDynamics.u_inputs := u_inputs |} |}.

End Init.

End CartpoleDynamics.

(** [CartpoleDynamics] inherits from [AutoDiffDynamics]. *)
Coercion CartpoleDynamics.dynamics : CartpoleDynamics.t >-> AutoDiffDynamics.t.

(** The inputs as the compiled function binds them, state first. *)
Definition inputs (x x_dot sin_theta cos_theta theta_dot u : R) : T.env :=
  [ ("x"%string, x); ("x_dot"%string, x_dot);
    ("sin_theta"%string, sin_theta); ("cos_theta"%string, cos_theta);
    ("theta_dot"%string, theta_dot); ("u"%string, u) ].

(** ** The transition function as the specification words it

    The steps 2 to 6 of the algorithm, on real numbers, for an effective
    force [F]. *)

Module Spec.

Section Step.

Variables (dt mc mp l g : R).
Variables (x x_dot sin_theta cos_theta theta_dot F : R).

Definition temp : R :=
  (F + mp * l * theta_dot ^ 2 * sin_theta) / (mc + mp).

Definition theta_dot_dot : R :=
  (g * sin_theta - cos_theta * temp)
  / (l * (4 / 3 - mp * cos_theta ^ 2 / (mc + mp))).

Definition x_dot_dot : R :=
  temp - mp * l * theta_dot_dot * cos_theta / (mc + mp).

Definition next_theta : R :=
  Ratan2 sin_theta cos_theta + theta_dot * dt.

Definition next_state : list R :=
  [ x + x_dot * dt;
    x_dot + x_dot_dot * dt;
    sin next_theta;
    cos next_theta;
    theta_dot + theta_dot_dot * dt ].

End Step.

(** Step 1: the control after the optional squashing. *)
Definition effective_force {squashing : Squashing}
  (constrain : bool) (min_bounds max_bounds u : R) : R :=
  if constrain then squash u min_bounds max_bounds else u.

End Spec.

(** ** Rows of a batch *)

Definition augment_row (r : list R) : list R :=
  [nth 0 r 0; nth 1 r 0; sin (nth 2 r 0); cos (nth 2 r 0); nth 3 r 0].

Definition reduce_row (r : list R) : list R :=
  [nth 0 r 0; nth 1 r 0; Ratan2 (nth 2 r 0) (nth 3 r 0); nth 4 r 0].

(** [a.shape] *)
Definition shape (a : ndarray) : list nat :=
  match a with
  | Scalar _ => []
  | Vector v => [length v]
  | Matrix ncols rows => [length rows; ncols]
  end.

(** ** Signed zeros

    IEEE 754 has two zeros, and [np.arctan2] reads the sign of a zero
    argument.  The real numbers have one zero, so [Ratan2] and [reduce_state]
    above give what the code gives on arrays that hold no negative zero.
    This module keeps the sign of zero: a number is the negative zero or a
    real number, [Num 0] being the positive zero.  It embeds [reduce_state]
    once more, over arrays of such numbers. *)

Module ieee.

Inductive float : Type :=
| NegZero
| Num (r : R).


(** [np.arctan2(y, x)] with the cases that C's [atan2] makes at zeros:
    [atan2(-0, x) = -PI] for [x] negative or the negative zero and [-0] for
    the other [x]; [atan2(+0, -0) = PI]; [atan2(y, -0) = atan2(y, +0)] for
    [y] not a zero. *)
Definition arctan2 (y x : float) : float :=
  match y, x with
  | NegZero, NegZero => Num (- PI)
  | NegZero, Num x' => if Rlt_dec x' 0 then Num (- PI) else NegZero
  | Num y', NegZero => if Req_dec_T y' 0 then Num PI else Num (Ratan2 y' 0)
  | Num y', Num x' => Num (Ratan2 y' x')
  end.

Inductive ndarray : Type :=
| Scalar (a : float)
| Vector (v : list float)
| Matrix (ncols : nat) (rows : list (list float)).

Definition ndim (a : ndarray) : nat :=
  match a with
  | Scalar _ => 0
  | Vector _ => 1
  | Matrix _ _ => 2
  end.

Definition iter (a : ndarray) : result (list ndarray) :=
  match a with
  | Scalar _ => Raise TypeError
  | Vector v => Ok (map Scalar v)
  | Matrix _ rows => Ok (map Vector rows)
  end.

Definition column (a : ndarray) (k : nat) : result ndarray :=
  match a with
  | Matrix ncols rows =>
      if (k <? ncols)%nat then Ok (Vector (map (fun r => nth k r (Num 0)) rows))
      else Raise IndexError
  | _ => Raise IndexError
  end.

Definition reshape_column (a : ndarray) : ndarray :=
  match a with
  | Scalar a => Matrix 1 [[a]]
  | Vector v => Matrix 1 (map (fun a => [a]) v)
  | Matrix _ rows => Matrix 1 (map (fun a => [a]) (concat rows))
  end.

Definition ufunc1 (g : float -> float) (a : ndarray) : ndarray :=
  match a with
  | Scalar a => Scalar (g a)
  | Vector v => Vector (map g v)
  | Matrix ncols rows => Matrix ncols (map (map g) rows)
  end.

Fixpoint zip_with (g : float -> float -> float) (v w : list float)
  : list float :=
  match v, w with
  | a :: v', b :: w' => g a b :: zip_with g v' w'
  | _, _ => []
  end.

Fixpoint zip_rows (g : float -> float -> float) (r s : list (list float))
  : list (list float) :=
  match r, s with
  | v :: r', w :: s' => zip_with g v w :: zip_rows g r' s'
  | _, _ => []
  end.

Definition ufunc2 (g : float -> float -> float) (a b : ndarray)
  : result ndarray :=
  match a, b with
  | Scalar a, _ => Ok (ufunc1 (g a) b)
  | _, Scalar b => Ok (ufunc1 (fun a => g a b) a)
  | Vector v, Vector w =>
      if (length v =? length w)%nat then Ok (Vector (zip_with g v w))
      else Raise ValueError
  | Matrix n r, Matrix m s =>
      if ((n =? m) && (length r =? length s))%nat
      then Ok (Matrix n (zip_rows g r s))
      else Raise ValueError
  | _, _ => Raise ValueError
  end.

Definition atleast_1d (a : ndarray) : ndarray :=
  match a with
  | Scalar a => Vector [a]
  | _ => a
  end.

Fixpoint concatenate0 (arrs : list ndarray) : result (list float) :=
  match arrs with
  | [] => Ok []
  | Vector v :: rest => w <- concatenate0 rest ;; Ok (v ++ w)
  | _ :: _ => Raise ValueError
  end.

Fixpoint append_rows (r s : list (list float)) : list (list float) :=
  match r, s with
  | v :: r', w :: s' => (v ++ w) :: append_rows r' s'
  | _, _ => []
  end.

Fixpoint concatenate1 (nrows : nat) (arrs : list ndarray)
  : result (nat * list (list float)) :=
  match arrs with
  | [] => Ok (0%nat, repeat [] nrows)
  | Matrix ncols rows :: rest =>
      if (length rows =? nrows)%nat
      then p <- concatenate1 nrows rest ;;
           Ok ((ncols + fst p)%nat, append_rows rows (snd p))
      else Raise ValueError
  | _ :: _ => Raise ValueError
  end.

Definition hstack (tup : list ndarray) : result ndarray :=
  let arrs := map atleast_1d tup in
  match arrs with
  | [] => Raise ValueError
  | Vector _ :: _ => fmap Vector (concatenate0 arrs)
  | Matrix _ rows :: _ =>
      fmap (fun p => Matrix (fst p) (snd p))
           (concatenate1 (length rows) arrs)
  | Scalar _ :: _ => Raise ValueError
  end.

Definition unpack5 (items : list ndarray)
  : result (ndarray * ndarray * ndarray * ndarray * ndarray) :=
  match items with
  | [a; b; c; d; e] => Ok (a, b, c, d, e)
  | _ => Raise ValueError
  end.

Definition column_of (state : ndarray) (k : nat) : result ndarray :=
  fmap reshape_column (column state k).

(** [CartpoleDynamics.reduce_state], on numbers with a signed zero. *)
Definition reduce_state (state : ndarray) : result ndarray :=
  vars <- (if (ndim state =? 1)%nat
           then items <- iter state ;; unpack5 items
           else x <- column_of state 0 ;;
                x_dot <- column_of state 1 ;;
                sin_theta <- column_of state 2 ;;
                cos_theta <- column_of state 3 ;;
                theta_dot <- column_of state 4 ;;
                Ok (x, x_dot, sin_theta, cos_theta, theta_dot)) ;;
  let '(x, x_dot, sin_theta, cos_theta, theta_dot) := vars in
  theta <- ufunc2 arctan2 sin_theta cos_theta ;;
  hstack [x; x_dot; theta; theta_dot].

Definition reduce_row (r : list float) : list float :=
  [ nth 0 r (Num 0); nth 1 r (Num 0);
    arctan2 (nth 2 r (Num 0)) (nth 3 r (Num 0)); nth 4 r (Num 0) ].



End ieee.

(** * Properties *)

(** ** Runs on concrete shapes *)

Example augment_vector_run (x x_dot theta theta_dot : R) :
  augment_state (Vector [x; x_dot; theta; theta_dot])
  = Ok (Vector [x; x_dot; sin theta; cos theta; theta_dot]).
Proof. reflexivity. Qed.

Example augment_batch_run (a b c d a' b' c' d' : R) :
  augment_state (Matrix 4 [[a; b; c; d]; [a'; b'; c'; d']])
  = Ok (Matrix 5 [[a; b; sin c; cos c; d]; [a'; b'; sin c'; cos c'; d']]).
Proof. reflexivity. Qed.

Example reduce_vector_run (x x_dot s c theta_dot : R) :
  reduce_state (Vector [x; x_dot; s; c; theta_dot])
  = Ok (Vector [x; x_dot; Ratan2 s c; theta_dot]).
Proof. reflexivity. Qed.

Example reduce_empty_batch_run :
  reduce_state (Matrix 5 []) = Ok (Matrix 4 []).
Proof. reflexivity. Qed.

(** ** The two-argument arctangent *)

Lemma atan_pos (t : R) : 0 < t -> 0 < atan t.
Proof. intros Ht. rewrite <- atan_0. now apply atan_increasing. Qed.

Lemma atan_nonpos (t : R) : t <= 0 -> atan t <= 0.
Proof.
  intros [Ht | ->].
  - left. rewrite <- atan_0. now apply atan_increasing.
  - rewrite atan_0. lra.
Qed.

Lemma div_neg_neg (y x : R) : y < 0 -> x < 0 -> 0 < y / x.
Proof.
  intros Hy Hx. replace (y / x) with ((- y) / (- x)) by (field; lra).
  apply Rdiv_lt_0_compat; lra.
Qed.

Lemma div_nonneg_neg (y x : R) : 0 <= y -> x < 0 -> y / x <= 0.
Proof.
  intros Hy Hx. replace (y / x) with (- (y / (- x))) by (field; lra).
  assert (0 <= y / (- x)) by (apply Rle_mult_inv_pos; lra). lra.
Qed.

(** Decide the next comparison of a goal, keeping the branch that linear
    arithmetic does not refute. *)
Ltac case_compare :=
  match goal with
  | |- context [Rlt_dec ?a ?b] => destruct (Rlt_dec a b); try lra
  | |- context [Rle_dec ?a ?b] => destruct (Rle_dec a b); try lra
  end.

Lemma Ratan2_range (y x : R) : - PI < Ratan2 y x <= PI.
Proof.
  pose proof PI_RGT_0 as Hpi.
  pose proof (atan_bound (y / x)) as Hb.
  unfold Ratan2.
  destruct (Rlt_dec 0 x) as [Hx | Hx]; [lra |].
  destruct (Rlt_dec x 0) as [Hx' | Hx'].
  - destruct (Rle_dec 0 y) as [Hy | Hy].
    + pose proof (atan_nonpos _ (div_nonneg_neg _ _ Hy Hx')). lra.
    + assert (0 < atan (y / x)) by (apply atan_pos, div_neg_neg; lra). lra.
  - destruct (Rlt_dec 0 y); [lra |].
    destruct (Rlt_dec y 0); lra.
Qed.

Lemma Ratan2_sin_cos (theta : R) :
  - PI < theta <= PI -> Ratan2 (sin theta) (cos theta) = theta.
Proof.
  intros [Hlo Hhi].
  pose proof PI_RGT_0 as Hpi.
  unfold Ratan2.
  destruct (Rtotal_order theta (- (PI / 2))) as [Hq | [Hq | Hq]].
  - (* third quadrant: theta in (-PI, -PI/2) *)
    assert (Hc : cos theta < 0).
    { rewrite <- cos_neg. apply cos_lt_0; lra. }
    assert (Hs : sin theta < 0) by (apply sin_lt_0_var; lra).
    repeat case_compare.
    replace (sin theta / cos theta) with (tan (theta + PI)).
    + rewrite atan_tan by lra. ring.
    + unfold tan. rewrite neg_sin, neg_cos. field. lra.
  - (* theta = -PI/2 *)
    subst theta. rewrite cos_neg, sin_neg, cos_PI2, sin_PI2.
    repeat case_compare.
  - destruct (Rtotal_order theta (PI / 2)) as [Hr | [Hr | Hr]].
    + (* right half plane: theta in (-PI/2, PI/2) *)
      assert (Hc : 0 < cos theta) by (apply cos_gt_0; lra).
      case_compare.
      fold (tan theta). apply atan_tan. lra.
    + (* theta = PI/2 *)
      subst theta. rewrite cos_PI2, sin_PI2.
      repeat case_compare.
    + (* second quadrant: theta in (PI/2, PI] *)
      assert (Hc : cos theta < 0) by (apply cos_lt_0; lra).
      assert (Hs : 0 <= sin theta) by (apply sin_ge_0; lra).
      repeat case_compare.
      replace (sin theta / cos theta) with (tan (theta - PI)).
      * rewrite atan_tan by lra. ring.
      * pose proof (neg_sin (theta - PI)) as Hsin.
        pose proof (neg_cos (theta - PI)) as Hcos.
        replace (theta - PI + PI) with theta in Hsin, Hcos by ring.
        unfold tan. rewrite Hsin, Hcos. field. lra.
Qed.



Lemma Ratan2_0_1 : Ratan2 0 1 = 0.
Proof.
  unfold Ratan2. case_compare.
  replace (0 / 1) with 0 by field. apply atan_0.
Qed.


(** ** Batches are converted row by row *)

Lemma column_of_matrix (n : nat) (rows : list (list R)) (k : nat) :
  (k < n)%nat ->
  column_of (Matrix n rows) k = Ok (Matrix 1 (map (fun r => [nth k r 0]) rows)).
Proof.
  intros Hk. unfold column_of, np.column.
  apply Nat.ltb_lt in Hk. rewrite Hk. cbn. now rewrite map_map.
Qed.

Lemma column_of_matrix_out (n : nat) (rows : list (list R)) (k : nat) :
  (n <= k)%nat -> column_of (Matrix n rows) k = Raise IndexError.
Proof.
  intros Hk. unfold column_of, np.column.
  apply Nat.ltb_ge in Hk. now rewrite Hk.
Qed.

Lemma append_rows_map {A : Type} (p q : A -> list R) (rows : list A) :
  np.append_rows (map p rows) (map q rows) = map (fun r => p r ++ q r) rows.
Proof. induction rows as [| r rows IH]; cbn; [| rewrite IH]; reflexivity. Qed.

Lemma zip_rows_map {A : Type} (g : R -> R -> R) (p q : A -> R) (rows : list A) :
  np.zip_rows g (map (fun r => [p r]) rows) (map (fun r => [q r]) rows)
  = map (fun r => [g (p r) (q r)]) rows.
Proof. induction rows as [| r rows IH]; cbn; [| rewrite IH]; reflexivity. Qed.

Lemma repeat_nil_map {A : Type} (rows : list A) :
  repeat (@nil R) (length rows) = map (fun _ => []) rows.
Proof. induction rows as [| r rows IH]; cbn; [| rewrite IH]; reflexivity. Qed.

(** [np.hstack] of column blocks that are all computed from the same rows. *)
Lemma hstack_blocks {A : Type} (rows : list A)
      (blocks : list (nat * (A -> list R))) :
  np.concatenate1 (length rows)
    (map (fun b => Matrix (fst b) (map (snd b) rows)) blocks)
  = Ok (fold_right (fun b acc => (fst b + acc)%nat) 0%nat blocks,
        map (fun r => fold_right (fun b acc => snd b r ++ acc) [] blocks) rows).
Proof.
  induction blocks as [| [w q] blocks IH]; cbn.
  - now rewrite repeat_nil_map.
  - rewrite length_map, Nat.eqb_refl, IH. cbn.
    now rewrite append_rows_map.
Qed.

Lemma augment_state_matrix (n : nat) (rows : list (list R)) :
  (4 <= n)%nat ->
  augment_state (Matrix n rows) = Ok (Matrix 5 (map augment_row rows)).
Proof.
  intros Hn. unfold augment_state. cbn [np.ndim Nat.eqb].
  rewrite !column_of_matrix by lia. cbn [bind].
  unfold np.hstack, np.sin, np.cos. cbn [np.ufunc1 map np.atleast_1d].
  rewrite !map_map, length_map. cbn [map].
  pose proof (hstack_blocks rows
    [ (1%nat, fun r => [nth 0 r 0]); (1%nat, fun r => [nth 1 r 0]);
      (1%nat, fun r => [sin (nth 2 r 0)]); (1%nat, fun r => [cos (nth 2 r 0)]);
      (1%nat, fun r => [nth 3 r 0]) ]) as H.
  cbn [map fst snd fold_right] in H. rewrite H. reflexivity.
Qed.

Lemma reduce_state_matrix (n : nat) (rows : list (list R)) :
  (5 <= n)%nat ->
  reduce_state (Matrix n rows) = Ok (Matrix 4 (map reduce_row rows)).
Proof.
  intros Hn. unfold reduce_state. cbn [np.ndim Nat.eqb].
  rewrite !column_of_matrix by lia. cbn [bind].
  unfold np.arctan2, np.ufunc2.
  rewrite !length_map, !Nat.eqb_refl. cbn [andb bind].
  rewrite zip_rows_map.
  unfold np.hstack. cbn [map np.atleast_1d].
  rewrite length_map.
  pose proof (hstack_blocks rows
    [ (1%nat, fun r => [nth 0 r 0]); (1%nat, fun r => [nth 1 r 0]);
      (1%nat, fun r => [Ratan2 (nth 2 r 0) (nth 3 r 0)]);
      (1%nat, fun r => [nth 4 r 0]) ]) as H.
  cbn [map fst snd fold_right] in H. rewrite H. reflexivity.
Qed.

(** ** Round trips between the two representations *)

(** C2.  For a reduced state [[x, x_dot, theta, theta_dot]] whose angle lies in
    [(-PI, PI]], reducing the augmented state gives the state back, entry by
    entry.  Whatever the angle, the angle that comes back is the two-argument
    arctangent of its sine and cosine, which lies in [(-PI, PI]]. *)
Theorem reduce_augment_roundtrip (x x_dot theta theta_dot : R) :
  - PI < theta <= PI ->
  (a <- augment_state (Vector [x; x_dot; theta; theta_dot]) ;; reduce_state a)
  = Ok (Vector [x; x_dot; theta; theta_dot])
  /\ (forall angle : R,
        (a <- augment_state (Vector [x; x_dot; angle; theta_dot]) ;;
         reduce_state a)
        = Ok (Vector [x; x_dot; Ratan2 (sin angle) (cos angle); theta_dot])
        /\ - PI < Ratan2 (sin angle) (cos angle) <= PI).
Proof.
  intros Htheta. split.
  - cbn. now rewrite Ratan2_sin_cos.
  - intros angle. split; [reflexivity | apply Ratan2_range].
Qed.

Lemma reduce_augment_roundtrip_witness :
  (a <- augment_state (Vector [1; 2; 0; 3]) ;; reduce_state a)
  = Ok (Vector [1; 2; 0; 3]).
Proof.
  apply (reduce_augment_roundtrip 1 2 0 3).
  pose proof PI_RGT_0. lra.
Defined.

(** C10.  For an augmented state [a] of five entries, unit norm or not,
    reducing, augmenting again and reducing again is the same as reducing
    once; and reducing once succeeds. *)
Theorem reduce_augment_reduce (x x_dot sin_theta cos_theta theta_dot : R) :
  let a := Vector [x; x_dot; sin_theta; cos_theta; theta_dot] in
  (r <- reduce_state a ;; b <- augment_state r ;; reduce_state b)
  = reduce_state a
  /\ is_ok (reduce_state a) = true.
Proof.
  cbn. split; [| reflexivity].
  rewrite Ratan2_sin_cos by apply Ratan2_range. reflexivity.
Qed.

(** ** Angle normalisation *)















(** ** One-row batches *)

(** C4.  A reduced state [s] of four entries is augmented to the same numbers
    whether it is passed as a vector or as the 1-row batch [[s]]; likewise an
    augmented state [a] of five entries is reduced to the same numbers either
    way. *)
Theorem batch_equivalence (s a : list R) :
  length s = 4%nat -> length a = 5%nat ->
  (exists v, augment_state (Vector s) = Ok (Vector v)
             /\ augment_state (batch1 (Vector s)) = Ok (batch1 (Vector v)))
  /\ (exists w, reduce_state (Vector a) = Ok (Vector w)
                /\ reduce_state (batch1 (Vector a)) = Ok (batch1 (Vector w))).
Proof.
  intros Hs Ha.
  destruct s as [| x [| x_dot [| theta [| theta_dot [| extra s]]]]];
    try discriminate Hs.
  destruct a as [| y [| y_dot [| sn [| cs [| omega [| extra a]]]]]];
    try discriminate Ha.
  split; eexists; split; reflexivity.
Qed.

Lemma batch_equivalence_witness :
  (exists v, augment_state (Vector [1; 2; 3; 4]) = Ok (Vector v)
             /\ augment_state (batch1 (Vector [1; 2; 3; 4]))
                = Ok (batch1 (Vector v)))
  /\ (exists w, reduce_state (Vector [1; 2; 0; 1; 4]) = Ok (Vector w)
                /\ reduce_state (batch1 (Vector [1; 2; 0; 1; 4]))
                   = Ok (batch1 (Vector w))).
Proof.
  apply (batch_equivalence [1; 2; 3; 4] [1; 2; 0; 1; 4]); reflexivity.
Defined.

(** ** Malformed shapes *)

(** C8, as the code has it.  A vector of the wrong length fails in the tuple
    unpacking with [ValueError], and a batch with too few columns fails in the
    column indexing with [IndexError]; nothing is caught.  A batch with more
    columns than the state has entries is converted without an error, from
    its leading columns. *)
Theorem malformed_shapes
        (v w : list R) (n m p q : nat) (rows : list (list R)) :
  length v <> 4%nat -> length w <> 5%nat ->
  (n < 4)%nat -> (m < 5)%nat -> (4 < p)%nat -> (5 < q)%nat ->
  augment_state (Vector v) = Raise ValueError
  /\ reduce_state (Vector w) = Raise ValueError
  /\ augment_state (Matrix n rows) = Raise IndexError
  /\ reduce_state (Matrix m rows) = Raise IndexError
  /\ augment_state (Matrix p rows) = Ok (Matrix 5 (map augment_row rows))
  /\ reduce_state (Matrix q rows) = Ok (Matrix 4 (map reduce_row rows)).
Proof.
  intros Hv Hw Hn Hm Hp Hq. repeat split.
  - destruct v as [| a [| b [| c [| d [| e v]]]]]; try reflexivity.
    now contradiction Hv.
  - destruct w as [| a [| b [| c [| d [| e [| e' w]]]]]]; try reflexivity.
    now contradiction Hw.
  - unfold augment_state. cbn [np.ndim Nat.eqb].
    do 4 (destruct n as [| n]; [reflexivity |]). lia.
  - unfold reduce_state. cbn [np.ndim Nat.eqb].
    do 5 (destruct m as [| m]; [reflexivity |]). lia.
  - apply augment_state_matrix. lia.
  - apply reduce_state_matrix. lia.
Qed.

Lemma malformed_shapes_witness :
  augment_state (Vector [1; 2; 3]) = Raise ValueError
  /\ reduce_state (Vector [1; 2; 3; 4]) = Raise ValueError
  /\ augment_state (Matrix 3 [[1; 2; 3; 4; 5; 6]]) = Raise IndexError
  /\ reduce_state (Matrix 4 [[1; 2; 3; 4; 5; 6]]) = Raise IndexError
  /\ augment_state (Matrix 5 [[1; 2; 3; 4; 5; 6]])
     = Ok (Matrix 5 (map augment_row [[1; 2; 3; 4; 5; 6]]))
  /\ reduce_state (Matrix 6 [[1; 2; 3; 4; 5; 6]])
     = Ok (Matrix 4 (map reduce_row [[1; 2; 3; 4; 5; 6]])).
Proof.
  apply (malformed_shapes [1; 2; 3] [1; 2; 3; 4] 3 4 5 6 [[1; 2; 3; 4; 5; 6]]);
    cbn; lia.
Defined.

(** C8 as stated fails: a batch of augmented states, five columns wide, is a
    malformed input of [augment_state], and a batch six columns wide is one of
    [reduce_state]; both return a result instead of an error. *)
Lemma malformed_batch_accepted :
  augment_state (Matrix 5 [[0; 0; 0; 1; 7]])
  = Ok (Matrix 5 [[0; 0; sin 0; cos 0; 1]])
  /\ reduce_state (Matrix 6 [[0; 0; 0; 1; 7; 9]])
     = Ok (Matrix 4 [[0; 0; Ratan2 0 1; 7]]).
Proof. split; reflexivity. Qed.

(** ** The transition function *)

Section Transition.

Context {squashing : Squashing}.
Variables (dt : R) (constrain : bool) (min_bounds max_bounds : R).
Variables (mc mp l g : R).


Lemma eval_F (x x_dot sin_theta cos_theta theta_dot u : R) :
  T.eval (inputs x x_dot sin_theta cos_theta theta_dot u)
         (CartpoleDynamics.F constrain min_bounds max_bounds)
  = Ok (Spec.effective_force constrain min_bounds max_bounds u).
Proof.
  unfold CartpoleDynamics.F, Spec.effective_force.
  destruct constrain; [rewrite tensor_constrain_eval |]; reflexivity.
Qed.

Lemma f_next_state (x x_dot sin_theta cos_theta theta_dot u : R) :
  AutoDiffDynamics.f
    (CartpoleDynamics.__init__ dt constrain min_bounds max_bounds mc mp l g)
    [x; x_dot; sin_theta; cos_theta; theta_dot] [u]
  = Ok (Spec.next_state dt mc mp l g x x_dot sin_theta cos_theta theta_dot
          (Spec.effective_force constrain min_bounds max_bounds u)).
Proof.
  unfold AutoDiffDynamics.f. cbn [CartpoleDynamics.__init__
    CartpoleDynamics.dynamics AutoDiffDynamics.x_inputs
    AutoDiffDynamics.u_inputs AutoDiffDynamics.f_expr app
    CartpoleDynamics.x_inputs CartpoleDynamics.u_inputs].
  change (T.bind_inputs _ _)
    with (Ok (inputs x x_dot sin_theta cos_theta theta_dot u)).
  cbn [bind].
  unfold CartpoleDynamics.f, CartpoleDynamics.x_dot_dot,
    CartpoleDynamics.theta_dot_dot, CartpoleDynamics.numerator,
    CartpoleDynamics.denominator, CartpoleDynamics.temp,
    CartpoleDynamics.next_theta, CartpoleDynamics.theta.
  cbn [T.eval_stack T.eval]. rewrite !eval_F.
  reflexivity.
Qed.

End Transition.

Section Dynamics.

Context {squashing : Squashing}.
Variables (dt : R) (constrain : bool) (min_bounds max_bounds : R).
Variables (mc mp l g : R).
Variables (x x_dot sin_theta cos_theta theta_dot u : R).
Variable theta : R.


(** C1.  With [F] the control after the optional squashing, the expressions
    that [__init__] builds evaluate to [temp], [theta_dot_dot], [x_dot_dot]
    and [next_theta] as the algorithm gives them, and the transition function
    returns the five entries of the next augmented state. *)
Theorem transition_function_formula :
  let F := if constrain then squash u min_bounds max_bounds else u in
  let temp := (F + mp * l * theta_dot ^ 2 * sin_theta) / (mc + mp) in
  let theta_dot_dot :=
    (g * sin_theta - cos_theta * temp)
    / (l * (4 / 3 - mp * cos_theta ^ 2 / (mc + mp))) in
  let x_dot_dot := temp - mp * l * theta_dot_dot * cos_theta / (mc + mp) in
  let next_theta := Ratan2 sin_theta cos_theta + theta_dot * dt in
  T.eval (inputs x x_dot sin_theta cos_theta theta_dot u)
    (CartpoleDynamics.F constrain min_bounds max_bounds) = Ok F
  /\ T.eval (inputs x x_dot sin_theta cos_theta theta_dot u)
    (CartpoleDynamics.temp constrain min_bounds max_bounds mc mp l)
     = Ok temp
  /\ T.eval (inputs x x_dot sin_theta cos_theta theta_dot u)
    (CartpoleDynamics.theta_dot_dot
                 constrain min_bounds max_bounds mc mp l g)
     = Ok theta_dot_dot
  /\ T.eval (inputs x x_dot sin_theta cos_theta theta_dot u)
    (CartpoleDynamics.x_dot_dot
                 constrain min_bounds max_bounds mc mp l g)
     = Ok x_dot_dot
  /\ T.eval (inputs x x_dot sin_theta cos_theta theta_dot u)
    (CartpoleDynamics.next_theta dt) = Ok next_theta
  /\ AutoDiffDynamics.f
    (CartpoleDynamics.__init__ dt constrain min_bounds max_bounds mc mp l g)
    [x; x_dot; sin_theta; cos_theta; theta_dot] [u]
     = Ok [ x + x_dot * dt;
            x_dot + x_dot_dot * dt;
            sin next_theta;
            cos next_theta;
            theta_dot + theta_dot_dot * dt ].
Proof.
  cbv zeta. refine (conj _ (conj _ (conj _ (conj _ (conj _ _))))).
  - apply eval_F.
  - unfold CartpoleDynamics.temp. cbn [T.eval]. rewrite eval_F. reflexivity.
  - unfold CartpoleDynamics.theta_dot_dot, CartpoleDynamics.numerator,
      CartpoleDynamics.denominator, CartpoleDynamics.temp.
    cbn [T.eval]. rewrite eval_F. reflexivity.
  - unfold CartpoleDynamics.x_dot_dot, CartpoleDynamics.theta_dot_dot,
      CartpoleDynamics.numerator, CartpoleDynamics.denominator,
      CartpoleDynamics.temp.
    cbn [T.eval]. rewrite !eval_F. reflexivity.
  - reflexivity.
  - apply f_next_state.
Qed.

(** C3.  For physical masses and length, when the effective force of the zero
    control is zero (the raw control itself, or a squashing that maps the
    zero control to zero force), the cart-pole at rest with the pole upright
    stays where it is. *)
Theorem equilibrium_fixed_point :
  0 < mc -> 0 < mp -> 0 < l ->
  (if constrain then squash 0 min_bounds max_bounds else 0) = 0 ->
  AutoDiffDynamics.f
    (CartpoleDynamics.__init__ dt constrain min_bounds max_bounds mc mp l g)
    [x; 0; 0; 1; 0] [0]
  = Ok [x; 0; 0; 1; 0].
Proof.
  intros Hmc Hmp Hl HF.
  rewrite f_next_state. unfold Spec.effective_force. rewrite HF.
  unfold Spec.next_state, Spec.next_theta. rewrite Ratan2_0_1.
  replace (0 + 0 * dt) with 0 by ring. rewrite sin_0, cos_0.
  assert (Htemp : Spec.temp mc mp l 0 0 0 = 0)
    by (unfold Spec.temp; field; lra).
  assert (Hacc : Spec.theta_dot_dot mc mp l g 0 1 0 0 = 0).
  { unfold Spec.theta_dot_dot. rewrite Htemp. field. split; lra. }
  assert (Hlin : Spec.x_dot_dot mc mp l g 0 1 0 0 = 0).
  { unfold Spec.x_dot_dot. rewrite Hacc, Htemp. field. lra. }
  rewrite Hacc, Hlin.
  replace (x + 0 * dt) with x by ring.
  replace (0 + 0 * dt) with 0 by ring.
  reflexivity.
Qed.

(** C5, as the code has it.  For physical masses and length and a
    [cos_theta] whose square is at most one, as the cosine of an angle is,
    the denominator of the angular acceleration is strictly positive, hence
    nonzero. *)
Theorem denominator_positive :
  0 < mc -> 0 < mp -> 0 < l -> cos_theta ^ 2 <= 1 ->
  T.eval (inputs x x_dot sin_theta cos_theta theta_dot u)
    (CartpoleDynamics.denominator mc mp l)
  = Ok (l * (4 / 3 - mp * cos_theta ^ 2 / (mc + mp)))
  /\ 0 < l * (4 / 3 - mp * cos_theta ^ 2 / (mc + mp)).
Proof.
  intros Hmc Hmp Hl Hcos. split; [reflexivity |].
  assert (Hratio : mp * cos_theta ^ 2 / (mc + mp) < 1).
  { apply Rmult_lt_reg_r with (mc + mp); [lra |].
    replace (mp * cos_theta ^ 2 / (mc + mp) * (mc + mp))
      with (mp * cos_theta ^ 2) by (field; lra).
    nra. }
  apply Rmult_lt_0_compat; lra.
Qed.

(** C6.  Built with [constrain = false], the force is the raw control symbol
    itself and the dynamics run on the raw control.  Built with
    [constrain = true] and [min_bounds < max_bounds], the force that the
    dynamics run on lies strictly between the bounds, whatever the raw
    control. *)
Theorem control_saturation :
  CartpoleDynamics.F false min_bounds max_bounds = CartpoleDynamics.u
  /\ AutoDiffDynamics.f
       (CartpoleDynamics.__init__ dt false min_bounds max_bounds mc mp l g)
       [x; x_dot; sin_theta; cos_theta; theta_dot] [u]
     = Ok (Spec.next_state dt mc mp l g
             x x_dot sin_theta cos_theta theta_dot u)
  /\ (min_bounds < max_bounds ->
      exists force : R,
        min_bounds < force < max_bounds
        /\ T.eval (inputs x x_dot sin_theta cos_theta theta_dot u)
             (CartpoleDynamics.F true min_bounds max_bounds)
           = Ok force
        /\ AutoDiffDynamics.f
             (CartpoleDynamics.__init__ dt true min_bounds max_bounds
                mc mp l g)
             [x; x_dot; sin_theta; cos_theta; theta_dot] [u]
           = Ok (Spec.next_state dt mc mp l g
                   x x_dot sin_theta cos_theta theta_dot force)).
Proof.
  split; [reflexivity |].
  split; [exact (f_next_state dt false _ _ mc mp l g _ _ _ _ _ _) |].
  intros Hbounds. exists (squash u min_bounds max_bounds).
  split; [now apply squash_interior |].
  split; [apply (eval_F true) |].
  exact (f_next_state dt true _ _ mc mp l g _ _ _ _ _ _).
Qed.

(** C9.  The sine and cosine entries that [augment_state] produces have unit
    norm, and so have the sine and cosine entries of the next state, whatever
    the current state and the control are. *)
Theorem unit_norm_preserved :
  (exists a b s c d : R,
      augment_state (Vector [x; x_dot; theta; theta_dot])
      = Ok (Vector [a; b; s; c; d])
      /\ s ^ 2 + c ^ 2 = 1)
  /\ (exists a b s c d : R,
        AutoDiffDynamics.f
          (CartpoleDynamics.__init__ dt constrain min_bounds max_bounds mc mp l g)
          [x; x_dot; sin_theta; cos_theta; theta_dot] [u]
        = Ok [a; b; s; c; d]
        /\ s ^ 2 + c ^ 2 = 1).
Proof.
  split.
  - do 5 eexists. split; [reflexivity |].
    rewrite <- !Rsqr_pow2. apply sin2_cos2.
  - rewrite f_next_state. do 5 eexists. split; [reflexivity |].
    rewrite <- !Rsqr_pow2. apply sin2_cos2.
Qed.

End Dynamics.

(** ** Witnesses and the degenerate denominator *)

Lemma tanh_squash_0 : tanh_squash 0 (- 1) 1 = 0.
Proof.
  unfold tanh_squash, tanh. rewrite sinh_0. field.
  rewrite cosh_0. lra.
Qed.

(** The scenario of the specification: default parameters, time step 0.01,
    the hyperbolic-tangent squashing, upright and at rest at the origin. *)
Lemma equilibrium_fixed_point_witness :
  AutoDiffDynamics.f
    (CartpoleDynamics.__init__ (squashing := tanh_squashing)
       (1 / 100) true (- 1) 1 1 (1 / 10) 1 (980665 / 100000))
    [0; 0; 0; 1; 0] [0]
  = Ok [0; 0; 0; 1; 0].
Proof.
  apply (equilibrium_fixed_point (squashing := tanh_squashing)
           (1 / 100) true (- 1) 1 1 (1 / 10) 1 (980665 / 100000) 0);
    try lra.
  exact tanh_squash_0.
Defined.

Lemma denominator_positive_witness :
  0 < 1 * (4 / 3 - (1 / 10) * 1 ^ 2 / (1 + 1 / 10)).
Proof.
  apply (denominator_positive 1 (1 / 10) 1 0 0 0 1 0 0); lra.
Defined.

(** C5 as stated fails: the masses and the length are positive, the state
    entry [cos_theta] is 4/3, and the denominator is zero. *)
Lemma denominator_zero_at_physical_parameters :
  0 < 1 /\ 0 < 3 /\ 0 < 1
  /\ T.eval (inputs 0 0 0 (4 / 3) 0 0) (CartpoleDynamics.denominator 1 3 1)
     = Ok 0.
Proof.
  repeat (split; [lra |]).
  cbn [T.eval CartpoleDynamics.denominator CartpoleDynamics.cos_theta
       inputs T.lookup String.eqb Ascii.eqb Bool.eqb bind].
  f_equal. field.
Qed.

Lemma control_saturation_witness :
  exists force : R,
    - 1 < force < 1
    /\ T.eval (inputs 0 0 0 1 0 100)
         (CartpoleDynamics.F (squashing := tanh_squashing) true (- 1) 1)
       = Ok force.
Proof.
  destruct (control_saturation (squashing := tanh_squashing)
              (1 / 100) (- 1) 1 1 (1 / 10) 1 (980665 / 100000)
              0 0 0 1 0 100) as [_ [_ Hsat]].
  destruct Hsat as [force [Hin [Hev _]]]; [lra |].
  exists force. split; [exact Hin | exact Hev].
Defined.

(** * Further properties of the conversions and of the transition function *)

(** ** Sine and cosine of the two-argument arctangent *)

Lemma norm_pos (s c : R) : 0 < s ^ 2 + c ^ 2 -> 0 < sqrt (s ^ 2 + c ^ 2).
Proof. apply sqrt_lt_R0. Qed.

Lemma sqrt_ratio_pos (s c : R) :
  0 < c -> sqrt (1 + Rsqr (s / c)) = sqrt (s ^ 2 + c ^ 2) / c.
Proof.
  intros Hc.
  assert (Hn : 0 < s ^ 2 + c ^ 2) by nra.
  pose proof (norm_pos s c Hn) as Hr.
  apply sqrt_lem_1.
  - unfold Rsqr. nra.
  - apply Rlt_le, Rdiv_lt_0_compat; assumption.
  - replace (sqrt (s ^ 2 + c ^ 2) / c * (sqrt (s ^ 2 + c ^ 2) / c))
      with (sqrt (s ^ 2 + c ^ 2) * sqrt (s ^ 2 + c ^ 2) / (c * c))
      by (field; lra).
    rewrite sqrt_sqrt by lra. unfold Rsqr. field. lra.
Qed.

Lemma sqrt_ratio_neg (s c : R) :
  c < 0 -> sqrt (1 + Rsqr (s / c)) = sqrt (s ^ 2 + c ^ 2) / (- c).
Proof.
  intros Hc.
  replace (s / c) with ((- s) / (- c)) by (field; lra).
  rewrite sqrt_ratio_pos by lra.
  do 2 f_equal. ring.
Qed.

Lemma sin_cos_atan_pos (s c : R) :
  0 < c ->
  sin (atan (s / c)) = s / sqrt (s ^ 2 + c ^ 2)
  /\ cos (atan (s / c)) = c / sqrt (s ^ 2 + c ^ 2).
Proof.
  intros Hc.
  assert (Hn : 0 < s ^ 2 + c ^ 2) by nra.
  pose proof (norm_pos s c Hn) as Hr.
  rewrite sin_atan, cos_atan, sqrt_ratio_pos by assumption.
  split; field; lra.
Qed.

Lemma sin_cos_atan_neg (s c : R) :
  c < 0 ->
  sin (atan (s / c)) = - s / sqrt (s ^ 2 + c ^ 2)
  /\ cos (atan (s / c)) = - c / sqrt (s ^ 2 + c ^ 2).
Proof.
  intros Hc.
  assert (Hn : 0 < s ^ 2 + c ^ 2) by nra.
  pose proof (norm_pos s c Hn) as Hr.
  rewrite sin_atan, cos_atan, sqrt_ratio_neg by assumption.
  split; field; lra.
Qed.

Lemma sin_minus_PI (a : R) : sin (a - PI) = - sin a.
Proof. rewrite sin_minus, cos_PI, sin_PI. ring. Qed.

Lemma cos_minus_PI (a : R) : cos (a - PI) = - cos a.
Proof. rewrite cos_minus, cos_PI, sin_PI. ring. Qed.

(** Away from the origin, [Ratan2 s c] is the angle of the point [(c, s)]
    scaled to the unit circle. *)
Lemma sin_cos_Ratan2 (s c : R) :
  0 < s ^ 2 + c ^ 2 ->
  sin (Ratan2 s c) = s / sqrt (s ^ 2 + c ^ 2)
  /\ cos (Ratan2 s c) = c / sqrt (s ^ 2 + c ^ 2).
Proof.
  intros Hn. pose proof (norm_pos s c Hn) as Hr.
  unfold Ratan2.
  destruct (Rlt_dec 0 c) as [Hc | Hc]; [now apply sin_cos_atan_pos |].
  destruct (Rlt_dec c 0) as [Hc' | Hc'].
  - destruct (sin_cos_atan_neg s c Hc') as [Hs Hk].
    destruct (Rle_dec 0 s).
    + rewrite neg_sin, neg_cos, Hs, Hk. split; field; lra.
    + rewrite sin_minus_PI, cos_minus_PI, Hs, Hk. split; field; lra.
  - assert (c = 0) by lra. subst c.
    replace (s ^ 2 + 0 ^ 2) with (s ^ 2) in * by ring.
    destruct (Rlt_dec 0 s) as [Hs | Hs].
    + rewrite sqrt_pow2, sin_PI2, cos_PI2 by lra. split; field; lra.
    + assert (Hs' : s < 0) by nra.
      destruct (Rlt_dec s 0); [| lra].
      replace (s ^ 2) with ((- s) ^ 2) by ring.
      rewrite sqrt_pow2, sin_neg, cos_neg, sin_PI2, cos_PI2 by lra.
      split; field; lra.
Qed.

Lemma sin_cos_Ratan2_unit (s c : R) :
  s ^ 2 + c ^ 2 = 1 -> sin (Ratan2 s c) = s /\ cos (Ratan2 s c) = c.
Proof.
  intros Hu. destruct (sin_cos_Ratan2 s c) as [Hs Hc]; [lra |].
  rewrite Hs, Hc, Hu, sqrt_1. split; field.
Qed.

Lemma unit_sin_cos (a : R) : sin a ^ 2 + cos a ^ 2 = 1.
Proof. rewrite <- !Rsqr_pow2. apply sin2_cos2. Qed.

Lemma Ratan2_0_0 : Ratan2 0 0 = 0.
Proof. unfold Ratan2. repeat case_compare. Qed.

(** ** The conversions on batches *)

Lemma map_fixed {A : Type} (g : A -> A) (P : A -> Prop) (xs : list A) :
  (forall a, P a -> g a = a) -> Forall P xs -> map g xs = xs.
Proof.
  intros Hg Hxs. induction Hxs as [| a xs Ha _ IH]; cbn.
  - reflexivity.
  - now rewrite Hg, IH.
Qed.

Lemma well_shaped_rows (g : list R -> list R) (n : nat) (rows : list (list R)) :
  (forall r, length (g r) = n) -> np.well_shaped (Matrix n (map g rows)).
Proof.
  intros Hg. cbn. apply Forall_forall. intros r Hin.
  apply in_map_iff in Hin as [r0 [<- _]]. apply Hg.
Qed.

(** X1.  A batch of reduced states, each row four entries long, is augmented
    row by row: every row of the result is what [augment_state] returns for
    that row passed as a vector. *)
Theorem augment_state_rows (rows : list (list R)) :
  Forall (fun r => length r = 4%nat) rows ->
  exists rows' : list (list R),
    augment_state (Matrix 4 rows) = Ok (Matrix 5 rows')
    /\ Forall2 (fun r r' => augment_state (Vector r) = Ok (Vector r'))
               rows rows'.
Proof.
  intros Hrows. exists (map augment_row rows).
  split; [now apply augment_state_matrix |].
  induction Hrows as [| r rows Hr _ IH]; cbn [map]; constructor; [| exact IH].
  destruct r as [| x [| x_dot [| theta [| theta_dot [| extra r]]]]];
    try discriminate Hr.
  reflexivity.
Qed.

Lemma augment_state_rows_witness :
  exists rows' : list (list R),
    augment_state (Matrix 4 [[1; 2; 3; 4]; [5; 6; 7; 8]]) = Ok (Matrix 5 rows')
    /\ Forall2 (fun r r' => augment_state (Vector r) = Ok (Vector r'))
               [[1; 2; 3; 4]; [5; 6; 7; 8]] rows'.
Proof.
  apply (augment_state_rows [[1; 2; 3; 4]; [5; 6; 7; 8]]).
  repeat constructor.
Defined.

(** X2.  A batch of augmented states, each row five entries long, is reduced
    row by row: every row of the result is what [reduce_state] returns for
    that row passed as a vector. *)
Theorem reduce_state_rows (rows : list (list R)) :
  Forall (fun r => length r = 5%nat) rows ->
  exists rows' : list (list R),
    reduce_state (Matrix 5 rows) = Ok (Matrix 4 rows')
    /\ Forall2 (fun r r' => reduce_state (Vector r) = Ok (Vector r'))
               rows rows'.
Proof.
  intros Hrows. exists (map reduce_row rows).
  split; [now apply reduce_state_matrix |].
  induction Hrows as [| r rows Hr _ IH]; cbn [map]; constructor; [| exact IH].
  destruct r as [| x [| x_dot [| s [| c [| theta_dot [| extra r]]]]]];
    try discriminate Hr.
  reflexivity.
Qed.

Lemma reduce_state_rows_witness :
  exists rows' : list (list R),
    reduce_state (Matrix 5 [[1; 2; 0; 1; 4]; [5; 6; 1; 0; 8]])
    = Ok (Matrix 4 rows')
    /\ Forall2 (fun r r' => reduce_state (Vector r) = Ok (Vector r'))
               [[1; 2; 0; 1; 4]; [5; 6; 1; 0; 8]] rows'.
Proof.
  apply (reduce_state_rows [[1; 2; 0; 1; 4]; [5; 6; 1; 0; 8]]).
  repeat constructor.
Defined.

(** X3.  For an input of at most two dimensions: whenever [augment_state]
    returns, its result is a vector of five entries for a vector of four, and
    for a batch a well-shaped batch of as many rows, five columns wide; an
    empty batch stays empty, and an input of no dimension never returns. *)
Theorem augment_state_shape (state r : ndarray) :
  (np.ndim state <= 2)%nat ->
  augment_state state = Ok r ->
  np.well_shaped r
  /\ ((shape state = [4%nat] /\ shape r = [5%nat])
      \/ (exists nrows ncols : nat,
            shape state = [nrows; ncols] /\ (4 <= ncols)%nat
            /\ shape r = [nrows; 5%nat])).
Proof.
  intros _ Hr. destruct state as [a | v | n rows].
  - discriminate Hr.
  - destruct v as [| x [| x_dot [| theta [| theta_dot [| extra v]]]]];
      try discriminate Hr.
    injection Hr as <-. split; [exact I | left; split; reflexivity].
  - destruct (le_lt_dec 4 n) as [Hn | Hn].
    + rewrite augment_state_matrix in Hr by assumption. injection Hr as <-.
      split; [now apply well_shaped_rows |].
      right. exists (length rows), n. cbn. now rewrite length_map.
    + exfalso. revert Hr. unfold augment_state. cbn [np.ndim Nat.eqb].
      do 4 (destruct n as [| n]; [discriminate |]). lia.
Qed.

Lemma augment_state_shape_witness :
  np.well_shaped
    (Matrix 5 [[1; 2; sin 3; cos 3; 4]; [5; 6; sin 7; cos 7; 8]])
  /\ ((shape (Matrix 4 [[1; 2; 3; 4]; [5; 6; 7; 8]]) = [4%nat]
       /\ shape (Matrix 5 [[1; 2; sin 3; cos 3; 4]; [5; 6; sin 7; cos 7; 8]])
          = [5%nat])
      \/ (exists nrows ncols : nat,
            shape (Matrix 4 [[1; 2; 3; 4]; [5; 6; 7; 8]]) = [nrows; ncols]
            /\ (4 <= ncols)%nat
            /\ shape
                 (Matrix 5 [[1; 2; sin 3; cos 3; 4]; [5; 6; sin 7; cos 7; 8]])
               = [nrows; 5%nat])).
Proof.
  apply (augment_state_shape
           (Matrix 4 [[1; 2; 3; 4]; [5; 6; 7; 8]])
           (Matrix 5 [[1; 2; sin 3; cos 3; 4]; [5; 6; sin 7; cos 7; 8]])).
  - cbn. lia.
  - reflexivity.
Defined.

(** X4.  For an input of at most two dimensions: whenever [reduce_state]
    returns, its result is a vector of four entries for a vector of five, and
    for a batch a well-shaped batch of as many rows, four columns wide; an
    input of no dimension never returns. *)
Theorem reduce_state_shape (state r : ndarray) :
  (np.ndim state <= 2)%nat ->
  reduce_state state = Ok r ->
  np.well_shaped r
  /\ ((shape state = [5%nat] /\ shape r = [4%nat])
      \/ (exists nrows ncols : nat,
            shape state = [nrows; ncols] /\ (5 <= ncols)%nat
            /\ shape r = [nrows; 4%nat])).
Proof.
  intros _ Hr. destruct state as [a | v | n rows].
  - discriminate Hr.
  - destruct v as [| x [| x_dot [| s [| c [| theta_dot [| extra v]]]]]];
      try discriminate Hr.
    injection Hr as <-. split; [exact I | left; split; reflexivity].
  - destruct (le_lt_dec 5 n) as [Hn | Hn].
    + rewrite reduce_state_matrix in Hr by assumption. injection Hr as <-.
      split; [now apply well_shaped_rows |].
      right. exists (length rows), n. cbn. now rewrite length_map.
    + exfalso. revert Hr. unfold reduce_state. cbn [np.ndim Nat.eqb].
      do 5 (destruct n as [| n]; [discriminate |]). lia.
Qed.

Lemma reduce_state_shape_witness :
  np.well_shaped
    (Matrix 4 [[1; 2; Ratan2 0 1; 4]; [5; 6; Ratan2 1 0; 8]])
  /\ ((shape (Matrix 5 [[1; 2; 0; 1; 4]; [5; 6; 1; 0; 8]]) = [5%nat]
       /\ shape (Matrix 4 [[1; 2; Ratan2 0 1; 4]; [5; 6; Ratan2 1 0; 8]])
          = [4%nat])
      \/ (exists nrows ncols : nat,
            shape (Matrix 5 [[1; 2; 0; 1; 4]; [5; 6; 1; 0; 8]])
            = [nrows; ncols]
            /\ (5 <= ncols)%nat
            /\ shape (Matrix 4 [[1; 2; Ratan2 0 1; 4]; [5; 6; Ratan2 1 0; 8]])
               = [nrows; 4%nat])).
Proof.
  apply (reduce_state_shape
           (Matrix 5 [[1; 2; 0; 1; 4]; [5; 6; 1; 0; 8]])
           (Matrix 4 [[1; 2; Ratan2 0 1; 4]; [5; 6; Ratan2 1 0; 8]])).
  - cbn. lia.
  - reflexivity.
Defined.

(** X5.  A well-shaped batch of reduced states whose angles all lie in
    [(-PI, PI]] comes back unchanged from augmentation followed by
    reduction. *)
Theorem batch_roundtrip (rows : list (list R)) :
  Forall (fun r => length r = 4%nat /\ - PI < nth 2 r 0 <= PI) rows ->
  (a <- augment_state (Matrix 4 rows) ;; reduce_state a) = Ok (Matrix 4 rows).
Proof.
  intros Hrows.
  rewrite augment_state_matrix by lia. cbn [bind].
  rewrite reduce_state_matrix by lia. rewrite map_map.
  do 2 f_equal. apply map_fixed with (2 := Hrows).
  intros r [Hlen Hang].
  destruct r as [| x [| x_dot [| theta [| theta_dot [| extra r]]]]];
    try discriminate Hlen.
  unfold reduce_row, augment_row. cbn in Hang |- *.
  now rewrite Ratan2_sin_cos.
Qed.

Lemma batch_roundtrip_witness :
  (a <- augment_state (Matrix 4 [[1; 2; 0; 3]; [4; 5; PI; 6]]) ;;
   reduce_state a)
  = Ok (Matrix 4 [[1; 2; 0; 3]; [4; 5; PI; 6]]).
Proof.
  apply (batch_roundtrip [[1; 2; 0; 3]; [4; 5; PI; 6]]).
  pose proof PI_RGT_0.
  repeat constructor; cbn; lra.
Defined.

(** ** Angles beyond the canonical range, states off the unit circle *)

Lemma sin_cos_period_Z (a : R) (k : Z) :
  sin (a + 2 * IZR k * PI) = sin a /\ cos (a + 2 * IZR k * PI) = cos a.
Proof.
  destruct (Z.le_gt_cases 0 k) as [Hk | Hk].
  - rewrite <- (Z2Nat.id k Hk), <- INR_IZR_INZ.
    split; [apply sin_period | apply cos_period].
  - assert (Hn : (0 <= - k)%Z) by lia.
    pose proof (sin_period (a + 2 * IZR k * PI) (Z.to_nat (- k))) as Hs.
    pose proof (cos_period (a + 2 * IZR k * PI) (Z.to_nat (- k))) as Hc.
    rewrite INR_IZR_INZ, (Z2Nat.id _ Hn), opp_IZR in Hs, Hc.
    replace (a + 2 * IZR k * PI + 2 * - IZR k * PI) with a in Hs, Hc by ring.
    split; congruence.
Qed.

(** X6.  Augmentation forgets how often the angle winds round the circle:
    from an angle [theta + 2 k PI], with [theta] in [(-PI, PI]] and [k] any
    integer, augmentation followed by reduction returns [theta]. *)
Theorem reduce_augment_unwinds (x x_dot theta theta_dot : R) (k : Z) :
  - PI < theta <= PI ->
  (a <- augment_state (Vector [x; x_dot; theta + 2 * IZR k * PI; theta_dot]) ;;
   reduce_state a)
  = Ok (Vector [x; x_dot; theta; theta_dot]).
Proof.
  intros Htheta. cbn.
  destruct (sin_cos_period_Z theta k) as [-> ->].
  now rewrite Ratan2_sin_cos.
Qed.

Lemma reduce_augment_unwinds_witness :
  (a <- augment_state (Vector [1; 2; PI / 2 + 2 * IZR (- 3) * PI; 4]) ;;
   reduce_state a)
  = Ok (Vector [1; 2; PI / 2; 4]).
Proof.
  apply (reduce_augment_unwinds 1 2 (PI / 2) 4 (- 3)).
  pose proof PI_RGT_0. lra.
Defined.

(** X7.  Reduction followed by augmentation scales the pair
    [(sin_theta, cos_theta)] of an augmented state to the unit circle, when
    the pair is not [(0, 0)], and keeps the other entries. *)
Theorem augment_reduce_normalises (x x_dot sin_theta cos_theta theta_dot : R) :
  0 < sin_theta ^ 2 + cos_theta ^ 2 ->
  (r <- reduce_state (Vector [x; x_dot; sin_theta; cos_theta; theta_dot]) ;;
   augment_state r)
  = Ok (Vector [x; x_dot;
                sin_theta / sqrt (sin_theta ^ 2 + cos_theta ^ 2);
                cos_theta / sqrt (sin_theta ^ 2 + cos_theta ^ 2);
                theta_dot]).
Proof.
  intros Hn. cbn.
  destruct (sin_cos_Ratan2 sin_theta cos_theta Hn) as [-> ->]. reflexivity.
Qed.

Lemma augment_reduce_normalises_witness :
  (r <- reduce_state (Vector [1; 2; 3; 4; 5]) ;; augment_state r)
  = Ok (Vector [1; 2; 3 / sqrt (3 ^ 2 + 4 ^ 2); 4 / sqrt (3 ^ 2 + 4 ^ 2); 5]).
Proof.
  apply (augment_reduce_normalises 1 2 3 4 5). lra.
Defined.

(** X8.  Reduction followed by augmentation gives an augmented state back
    exactly when its pair [(sin_theta, cos_theta)] has unit norm. *)
Theorem augment_reduce_identity_iff (x x_dot sin_theta cos_theta theta_dot : R) :
  (r <- reduce_state (Vector [x; x_dot; sin_theta; cos_theta; theta_dot]) ;;
   augment_state r)
  = Ok (Vector [x; x_dot; sin_theta; cos_theta; theta_dot])
  <-> sin_theta ^ 2 + cos_theta ^ 2 = 1.
Proof.
  cbn [reduce_state augment_state np.ndim Nat.eqb np.iter map unpack4 unpack5
       bind np.arctan2 np.ufunc2 np.ufunc1 np.hstack np.atleast_1d np.sin
       np.cos np.concatenate0 fmap app].
  split.
  - intros Heq. injection Heq as Hs Hc.
    pose proof (unit_sin_cos (Ratan2 sin_theta cos_theta)) as Hu.
    now rewrite Hs, Hc in Hu.
  - intros Hu.
    destruct (sin_cos_Ratan2_unit sin_theta cos_theta Hu) as [-> ->].
    reflexivity.
Qed.

(** ** One step of the dynamics *)

Lemma sin_cos_Ratan2_opp (s c : R) :
  sin (Ratan2 (- s) c) = - sin (Ratan2 s c)
  /\ cos (Ratan2 (- s) c) = cos (Ratan2 s c).
Proof.
  destruct (Rtotal_order 0 (s ^ 2 + c ^ 2)) as [Hn | [Hn | Hn]].
  - assert (Hn' : 0 < (- s) ^ 2 + c ^ 2) by nra.
    destruct (sin_cos_Ratan2 s c Hn) as [-> ->].
    destruct (sin_cos_Ratan2 (- s) c Hn') as [-> ->].
    replace ((- s) ^ 2) with (s ^ 2) by ring.
    pose proof (norm_pos s c Hn). split; field; lra.
  - assert (s = 0) by nra. assert (c = 0) by nra. subst s c.
    replace (- 0) with 0 by ring. rewrite Ratan2_0_0, sin_0. split; ring.
  - nra.
Qed.

Lemma ratio_below_one (mc mp c : R) :
  0 < mc -> 0 < mp -> c ^ 2 <= 1 -> mp * c ^ 2 / (mc + mp) < 1.
Proof.
  intros Hmc Hmp Hc.
  apply Rmult_lt_reg_r with (mc + mp); [lra |].
  replace (mp * c ^ 2 / (mc + mp) * (mc + mp)) with (mp * c ^ 2)
    by (field; lra).
  nra.
Qed.

Section Step_facts.

Context {squashing : Squashing}.
Variables (dt : R) (constrain : bool) (min_bounds max_bounds : R).
Variables (mc mp l g : R).
Variables (x x_dot sin_theta cos_theta theta_dot u : R).
Variable theta : R.

(** X9.  The step does not depend on how the angle of a reduced state is
    represented: stepping the augmented form of [[x, x_dot, theta, theta_dot]],
    for any [theta], gives the augmented form of the reduced state advanced
    by explicit Euler, with the angle [theta + theta_dot * dt]. *)
Theorem step_commutes_with_augment :
  let F := Spec.effective_force constrain min_bounds max_bounds u in
  fmap Vector
    (AutoDiffDynamics.f
       (CartpoleDynamics.__init__ dt constrain min_bounds max_bounds mc mp l g)
       [x; x_dot; sin theta; cos theta; theta_dot] [u])
  = augment_state
      (Vector
         [ x + x_dot * dt;
           x_dot
           + Spec.x_dot_dot mc mp l g (sin theta) (cos theta) theta_dot F * dt;
           theta + theta_dot * dt;
           theta_dot
           + Spec.theta_dot_dot mc mp l g (sin theta) (cos theta) theta_dot F
             * dt ]).
Proof.
  cbv zeta. rewrite f_next_state, augment_vector_run.
  unfold Spec.next_state, Spec.next_theta, fmap. cbn [bind].
  rewrite !sin_plus, !cos_plus.
  destruct (sin_cos_Ratan2_unit _ _ (unit_sin_cos theta)) as [-> ->].
  reflexivity.
Qed.

(** X10.  The dynamics do not depend on where the cart is: moving the start
    by [a] moves the next position by [a] and changes no other entry. *)
Theorem step_translation_invariant (a : R) :
  exists (p : R) (rest : list R),
    AutoDiffDynamics.f
      (CartpoleDynamics.__init__ dt constrain min_bounds max_bounds mc mp l g)
      [x; x_dot; sin_theta; cos_theta; theta_dot] [u]
    = Ok (p :: rest)
    /\ AutoDiffDynamics.f
         (CartpoleDynamics.__init__ dt constrain min_bounds max_bounds
            mc mp l g)
         [x + a; x_dot; sin_theta; cos_theta; theta_dot] [u]
       = Ok (p + a :: rest).
Proof.
  rewrite !f_next_state. unfold Spec.next_state.
  do 2 eexists. split; [reflexivity |].
  do 2 f_equal. ring.
Qed.

(** X12.  With a zero time step, physical masses and length, and a state of
    unit norm, the step returns the state it was given. *)
Theorem zero_time_step_identity :
  0 < mc -> 0 < mp -> 0 < l ->
  sin_theta ^ 2 + cos_theta ^ 2 = 1 ->
  AutoDiffDynamics.f
    (CartpoleDynamics.__init__ 0 constrain min_bounds max_bounds mc mp l g)
    [x; x_dot; sin_theta; cos_theta; theta_dot] [u]
  = Ok [x; x_dot; sin_theta; cos_theta; theta_dot].
Proof.
  intros Hmc Hmp Hl Hu.
  rewrite f_next_state. unfold Spec.next_state, Spec.next_theta.
  replace (Ratan2 sin_theta cos_theta + theta_dot * 0)
    with (Ratan2 sin_theta cos_theta) by ring.
  destruct (sin_cos_Ratan2_unit _ _ Hu) as [-> ->].
  repeat (f_equal; try ring).
Qed.

(** X14.  When the angle advanced by the step lies in [(-PI, PI]], reducing
    the next state gives that angle, beside the next position and the two
    next velocities. *)
Theorem reduce_after_step :
  let F := Spec.effective_force constrain min_bounds max_bounds u in
  let next_theta := Ratan2 sin_theta cos_theta + theta_dot * dt in
  - PI < next_theta <= PI ->
  (out <- AutoDiffDynamics.f
            (CartpoleDynamics.__init__ dt constrain min_bounds max_bounds
               mc mp l g)
            [x; x_dot; sin_theta; cos_theta; theta_dot] [u] ;;
   reduce_state (Vector out))
  = Ok (Vector
          [ x + x_dot * dt;
            x_dot
            + Spec.x_dot_dot mc mp l g sin_theta cos_theta theta_dot F * dt;
            next_theta;
            theta_dot
            + Spec.theta_dot_dot mc mp l g sin_theta cos_theta theta_dot F
              * dt ]).
Proof.
  cbv zeta. intros Hrange. rewrite f_next_state.
  unfold Spec.next_state, Spec.next_theta. cbn [bind].
  rewrite reduce_vector_run. now rewrite Ratan2_sin_cos.
Qed.

End Step_facts.

Lemma accelerations_odd (mc mp l g s c w F : R) :
  Spec.theta_dot_dot mc mp l g (- s) c (- w) (- F)
  = - Spec.theta_dot_dot mc mp l g s c w F
  /\ Spec.x_dot_dot mc mp l g (- s) c (- w) (- F)
     = - Spec.x_dot_dot mc mp l g s c w F.
Proof.
  unfold Spec.x_dot_dot, Spec.theta_dot_dot, Spec.temp, Rdiv. split; ring.
Qed.

Lemma x_dot_dot_slope (mc mp l g s c w F1 F2 : R) :
  0 < mc -> 0 < mp -> 0 < l -> c ^ 2 <= 1 ->
  Spec.x_dot_dot mc mp l g s c w F2 - Spec.x_dot_dot mc mp l g s c w F1
  = (F2 - F1) / (mc + mp)
    * (1 + mp * c ^ 2 / ((4 / 3 - mp * c ^ 2 / (mc + mp)) * (mc + mp))).
Proof.
  intros Hmc Hmp Hl Hc.
  pose proof (ratio_below_one mc mp c Hmc Hmp Hc) as Hratio.
  unfold Spec.x_dot_dot, Spec.theta_dot_dot, Spec.temp.
  field. repeat split; try lra.
  intros Hz.
  assert (Heq : mp * c ^ 2 / (mc + mp) * (mc + mp) = mp * c ^ 2)
    by (field; lra).
  nra.
Qed.

(** X11.  In one step the control, the squashing and the physical parameters
    act on the two velocities only: the next position and the next sine and
    cosine are the same for any two controls and any two parameter sets with
    the same time step. *)
Theorem control_moves_velocities_only {squashing : Squashing}
        (dt : R) (constrain constrain' : bool)
        (min_bounds max_bounds min_bounds' max_bounds' : R)
        (mc mp l g mc' mp' l' g' : R)
        (x x_dot sin_theta cos_theta theta_dot u u' : R) :
  exists p s c v w v' w' : R,
    AutoDiffDynamics.f
      (CartpoleDynamics.__init__ dt constrain min_bounds max_bounds mc mp l g)
      [x; x_dot; sin_theta; cos_theta; theta_dot] [u]
    = Ok [p; v; s; c; w]
    /\ AutoDiffDynamics.f
         (CartpoleDynamics.__init__ dt constrain' min_bounds' max_bounds'
            mc' mp' l' g')
         [x; x_dot; sin_theta; cos_theta; theta_dot] [u']
       = Ok [p; v'; s; c; w'].
Proof.
  rewrite !f_next_state. unfold Spec.next_state.
  do 7 eexists. split; reflexivity.
Qed.

(** X13.  The dynamics are mirror symmetric.  When the effective force is an
    odd function of the control (the raw control, or a squashing between
    opposite bounds), mirroring the state and the control mirrors the next
    state: position, velocities and sine change sign, the cosine is kept. *)
Theorem step_mirror_symmetric {squashing : Squashing}
        (dt : R) (constrain : bool) (min_bounds max_bounds mc mp l g : R)
        (x x_dot sin_theta cos_theta theta_dot u : R) :
  Spec.effective_force constrain min_bounds max_bounds (- u)
  = - Spec.effective_force constrain min_bounds max_bounds u ->
  exists p v s c w : R,
    AutoDiffDynamics.f
      (CartpoleDynamics.__init__ dt constrain min_bounds max_bounds mc mp l g)
      [x; x_dot; sin_theta; cos_theta; theta_dot] [u]
    = Ok [p; v; s; c; w]
    /\ AutoDiffDynamics.f
         (CartpoleDynamics.__init__ dt constrain min_bounds max_bounds
            mc mp l g)
         [- x; - x_dot; - sin_theta; cos_theta; - theta_dot] [- u]
       = Ok [- p; - v; - s; c; - w].
Proof.
  intros Hodd. rewrite !f_next_state, Hodd. unfold Spec.next_state.
  do 5 eexists. split; [reflexivity |].
  destruct (accelerations_odd mc mp l g sin_theta cos_theta theta_dot
              (Spec.effective_force constrain min_bounds max_bounds u))
    as [-> ->].
  unfold Spec.next_theta.
  replace (- theta_dot * dt) with (- (theta_dot * dt)) by ring.
  rewrite !sin_plus, !cos_plus, sin_neg, cos_neg.
  destruct (sin_cos_Ratan2_opp sin_theta cos_theta) as [-> ->].
  repeat (f_equal; try ring).
Qed.

Lemma tanh_squash_odd (v : R) : tanh_squash (- v) (- 1) 1 = - tanh_squash v (- 1) 1.
Proof.
  unfold tanh_squash, tanh, sinh, cosh. rewrite Ropp_involutive.
  pose proof (exp_pos v). pose proof (exp_pos (- v)).
  field. lra.
Qed.

Lemma step_mirror_symmetric_witness :
  exists p v s c w : R,
    AutoDiffDynamics.f
      (CartpoleDynamics.__init__ (squashing := tanh_squashing)
         (1 / 100) true (- 1) 1 1 (1 / 10) 1 (980665 / 100000))
      [1; 2; 0; 1; 3] [5]
    = Ok [p; v; s; c; w]
    /\ AutoDiffDynamics.f
         (CartpoleDynamics.__init__ (squashing := tanh_squashing)
            (1 / 100) true (- 1) 1 1 (1 / 10) 1 (980665 / 100000))
         [- 1; - 2; - 0; 1; - 3] [- 5]
       = Ok [- p; - v; - s; c; - w].
Proof.
  apply (step_mirror_symmetric (squashing := tanh_squashing)
           (1 / 100) true (- 1) 1 1 (1 / 10) 1 (980665 / 100000)
           1 2 0 1 3 5).
  exact (tanh_squash_odd 5).
Defined.

(** X15.  For physical masses and length, a positive time step, a state entry
    [cos_theta] whose square is at most one and the raw control as force, a
    larger force gives a larger next cart velocity; the position and the sine
    and cosine of the next state are the same. *)
Theorem larger_force_faster_cart {squashing : Squashing}
        (dt min_bounds max_bounds mc mp l g : R)
        (x x_dot sin_theta cos_theta theta_dot u u' : R) :
  0 < mc -> 0 < mp -> 0 < l -> 0 < dt -> cos_theta ^ 2 <= 1 -> u < u' ->
  exists p s c v w v' w' : R,
    AutoDiffDynamics.f
      (CartpoleDynamics.__init__ dt false min_bounds max_bounds mc mp l g)
      [x; x_dot; sin_theta; cos_theta; theta_dot] [u]
    = Ok [p; v; s; c; w]
    /\ AutoDiffDynamics.f
         (CartpoleDynamics.__init__ dt false min_bounds max_bounds mc mp l g)
         [x; x_dot; sin_theta; cos_theta; theta_dot] [u']
       = Ok [p; v'; s; c; w']
    /\ v < v'.
Proof.
  intros Hmc Hmp Hl Hdt Hc Hu.
  rewrite !f_next_state. unfold Spec.next_state, Spec.effective_force.
  do 7 eexists. split; [reflexivity |]. split; [reflexivity |].
  pose proof (x_dot_dot_slope mc mp l g sin_theta cos_theta theta_dot u u'
                Hmc Hmp Hl Hc) as Hslope.
  pose proof (ratio_below_one mc mp cos_theta Hmc Hmp Hc) as Hratio.
  assert (Hgain :
    0 < 1 + mp * cos_theta ^ 2
            / ((4 / 3 - mp * cos_theta ^ 2 / (mc + mp)) * (mc + mp))).
  { assert (0 <= mp * cos_theta ^ 2
                 / ((4 / 3 - mp * cos_theta ^ 2 / (mc + mp)) * (mc + mp))).
    { apply Rle_mult_inv_pos; [nra |]. apply Rmult_lt_0_compat; lra. }
    lra. }
  assert (Hpush : 0 < (u' - u) / (mc + mp))
    by (apply Rdiv_lt_0_compat; lra).
  pose proof (Rmult_lt_0_compat _ _ Hpush Hgain) as Hpos.
  rewrite <- Hslope in Hpos. nra.
Qed.

Lemma larger_force_faster_cart_witness :
  exists p s c v w v' w' : R,
    AutoDiffDynamics.f
      (CartpoleDynamics.__init__ (squashing := tanh_squashing)
         (1 / 100) false (- 1) 1 1 (1 / 10) 1 (980665 / 100000))
      [0; 0; 0; 1; 0] [0]
    = Ok [p; v; s; c; w]
    /\ AutoDiffDynamics.f
         (CartpoleDynamics.__init__ (squashing := tanh_squashing)
            (1 / 100) false (- 1) 1 1 (1 / 10) 1 (980665 / 100000))
         [0; 0; 0; 1; 0] [1]
       = Ok [p; v'; s; c; w']
    /\ v < v'.
Proof.
  apply (larger_force_faster_cart (squashing := tanh_squashing)
           (1 / 100) (- 1) 1 1 (1 / 10) 1 (980665 / 100000)
           0 0 0 1 0 0 1); lra.
Defined.

Lemma zero_time_step_identity_witness :
  AutoDiffDynamics.f
    (CartpoleDynamics.__init__ (squashing := tanh_squashing)
       0 true (- 1) 1 1 (1 / 10) 1 (980665 / 100000))
    [1; 2; 0; 1; 3] [5]
  = Ok [1; 2; 0; 1; 3].
Proof.
  apply (zero_time_step_identity (squashing := tanh_squashing)
           true (- 1) 1 1 (1 / 10) 1 (980665 / 100000) 1 2 0 1 3 5);
    lra.
Defined.

Lemma reduce_after_step_witness :
  (out <- AutoDiffDynamics.f
            (CartpoleDynamics.__init__ (squashing := tanh_squashing)
               (1 / 100) false (- 1) 1 1 (1 / 10) 1 (980665 / 100000))
            [0; 0; 0; 1; 0] [0] ;;
   reduce_state (Vector out))
  = Ok (Vector
          [ 0 + 0 * (1 / 100);
            0 + Spec.x_dot_dot 1 (1 / 10) 1 (980665 / 100000) 0 1 0
                  (Spec.effective_force (squashing := tanh_squashing)
                     false (- 1) 1 0)
                * (1 / 100);
            Ratan2 0 1 + 0 * (1 / 100);
            0 + Spec.theta_dot_dot 1 (1 / 10) 1 (980665 / 100000) 0 1 0
                  (Spec.effective_force (squashing := tanh_squashing)
                     false (- 1) 1 0)
                * (1 / 100) ]).
Proof.
  apply (reduce_after_step (squashing := tanh_squashing)
           (1 / 100) false (- 1) 1 1 (1 / 10) 1 (980665 / 100000)
           0 0 0 1 0 0).
  rewrite Ratan2_0_1. pose proof PI_RGT_0. lra.
Defined.

(** X16.  The upright rest is unstable.  For physical masses and length,
    positive gravity and time step, no force and no angular velocity, a pole
    tilted to the positive side ([sin_theta > 0], [cos_theta ^ 2 <= 1])
    gains positive angular velocity, and while it is above the horizontal
    ([cos_theta > 0]) the cart is pushed the other way. *)
Theorem tilted_pole_falls {squashing : Squashing}
        (dt min_bounds max_bounds mc mp l g : R)
        (x x_dot sin_theta cos_theta : R) :
  0 < mc -> 0 < mp -> 0 < l -> 0 < g -> 0 < dt ->
  cos_theta ^ 2 <= 1 -> 0 < sin_theta ->
  exists p v s c w : R,
    AutoDiffDynamics.f
      (CartpoleDynamics.__init__ dt false min_bounds max_bounds mc mp l g)
      [x; x_dot; sin_theta; cos_theta; 0] [0]
    = Ok [p; v; s; c; w]
    /\ 0 < w
    /\ (0 < cos_theta -> v < x_dot).
Proof.
  intros Hmc Hmp Hl Hg Hdt Hc Hs.
  rewrite f_next_state. unfold Spec.next_state, Spec.effective_force.
  do 5 eexists. split; [reflexivity |].
  pose proof (ratio_below_one mc mp cos_theta Hmc Hmp Hc) as Hratio.
  set (D := 4 / 3 - mp * cos_theta ^ 2 / (mc + mp)) in *.
  assert (Hacc : Spec.theta_dot_dot mc mp l g sin_theta cos_theta 0 0
                 = g * sin_theta / (l * D)).
  { unfold Spec.theta_dot_dot, Spec.temp. fold D. field.
    repeat split; try lra. unfold D. lra. }
  assert (Hlin : Spec.x_dot_dot mc mp l g sin_theta cos_theta 0 0
                 = - (mp * cos_theta / (mc + mp)
                      * (g * sin_theta / D))).
  { unfold Spec.x_dot_dot. rewrite Hacc. unfold Spec.temp. field.
    repeat split; try lra. unfold D. lra. }
  assert (HD : 0 < D) by (unfold D; lra).
  assert (Hfall : 0 < g * sin_theta / (l * D)).
  { apply Rdiv_lt_0_compat; [| apply Rmult_lt_0_compat]; nra. }
  assert (Hfall' : 0 < g * sin_theta / D) by (apply Rdiv_lt_0_compat; nra).
  rewrite Hacc, Hlin. split; [nra |].
  intros Hup.
  assert (Hshare : 0 < mp * cos_theta / (mc + mp))
    by (apply Rdiv_lt_0_compat; nra).
  pose proof (Rmult_lt_0_compat _ _ Hshare Hfall') as Hpull.
  pose proof (Rmult_lt_0_compat _ _ Hpull Hdt) as Hdrop.
  lra.
Qed.

Lemma tilted_pole_falls_witness :
  exists p v s c w : R,
    AutoDiffDynamics.f
      (CartpoleDynamics.__init__ (squashing := tanh_squashing)
         (1 / 100) false (- 1) 1 1 (1 / 10) 1 (980665 / 100000))
      [0; 0; 3 / 5; 4 / 5; 0] [0]
    = Ok [p; v; s; c; w]
    /\ 0 < w
    /\ (0 < 4 / 5 -> v < 0).
Proof.
  apply (tilted_pole_falls (squashing := tanh_squashing)
           (1 / 100) (- 1) 1 1 (1 / 10) 1 (980665 / 100000)
           0 0 (3 / 5) (4 / 5)); lra.
Defined.

(** ** What the conversions keep apart and what they identify *)

(** X17.  On angles in [(-PI, PI]], [augment_state] is injective: two reduced
    states with the same augmented form are the same state. *)
Theorem augment_state_injective
        (x x_dot theta theta_dot x' x_dot' theta' theta_dot' : R) :
  - PI < theta <= PI -> - PI < theta' <= PI ->
  augment_state (Vector [x; x_dot; theta; theta_dot])
  = augment_state (Vector [x'; x_dot'; theta'; theta_dot']) ->
  [x; x_dot; theta; theta_dot] = [x'; x_dot'; theta'; theta_dot'].
Proof.
  intros Htheta Htheta' Heq.
  rewrite !augment_vector_run in Heq.
  injection Heq as -> -> Hs Hc ->.
  rewrite <- (Ratan2_sin_cos theta Htheta), <- (Ratan2_sin_cos theta' Htheta').
  now rewrite Hs, Hc.
Qed.

Lemma augment_state_injective_witness :
  [1; 2; 0; 3] = [1; 2; 0; 3].
Proof.
  apply (augment_state_injective 1 2 0 3 1 2 0 3);
    try (pose proof PI_RGT_0; lra).
  reflexivity.
Defined.

Lemma Ratan2_scale (k s c : R) : 0 < k -> Ratan2 (k * s) (k * c) = Ratan2 s c.
Proof.
  intros Hk. unfold Ratan2.
  destruct (Rlt_dec 0 c) as [Hc | Hc].
  - destruct (Rlt_dec 0 (k * c)); [| nra].
    f_equal. field. lra.
  - destruct (Rlt_dec 0 (k * c)); [nra |].
    destruct (Rlt_dec c 0) as [Hc' | Hc'].
    + destruct (Rlt_dec (k * c) 0); [| nra].
      replace (k * s / (k * c)) with (s / c) by (field; lra).
      destruct (Rle_dec 0 s); destruct (Rle_dec 0 (k * s));
        try reflexivity; nra.
    + destruct (Rlt_dec (k * c) 0); [nra |].
      destruct (Rlt_dec 0 s); destruct (Rlt_dec 0 (k * s)); try nra;
        try reflexivity.
      destruct (Rlt_dec s 0); destruct (Rlt_dec (k * s) 0); try nra;
        reflexivity.
Qed.

(** X18.  [reduce_state] sees the direction of the pair
    [(sin_theta, cos_theta)] only: scaling the pair by a positive factor does
    not change the reduced state. *)
Theorem reduce_state_ignores_norm
        (k x x_dot sin_theta cos_theta theta_dot : R) :
  0 < k ->
  reduce_state (Vector [x; x_dot; k * sin_theta; k * cos_theta; theta_dot])
  = reduce_state (Vector [x; x_dot; sin_theta; cos_theta; theta_dot]).
Proof.
  intros Hk. rewrite !reduce_vector_run. now rewrite Ratan2_scale.
Qed.

Lemma reduce_state_ignores_norm_witness :
  reduce_state (Vector [1; 2; 5 * (3 / 5); 5 * (4 / 5); 3])
  = reduce_state (Vector [1; 2; 3 / 5; 4 / 5; 3]).
Proof.
  apply (reduce_state_ignores_norm 5 1 2 (3 / 5) (4 / 5) 3). lra.
Defined.

(** ** Saturated control *)

Lemma x_dot_dot_increasing (mc mp l g s c w F1 F2 : R) :
  0 < mc -> 0 < mp -> 0 < l -> c ^ 2 <= 1 -> F1 < F2 ->
  Spec.x_dot_dot mc mp l g s c w F1 < Spec.x_dot_dot mc mp l g s c w F2.
Proof.
  intros Hmc Hmp Hl Hc HF.
  pose proof (x_dot_dot_slope mc mp l g s c w F1 F2 Hmc Hmp Hl Hc) as Hslope.
  pose proof (ratio_below_one mc mp c Hmc Hmp Hc) as Hratio.
  assert (Hgain :
    0 <= mp * c ^ 2 / ((4 / 3 - mp * c ^ 2 / (mc + mp)) * (mc + mp))).
  { apply Rle_mult_inv_pos; [nra |]. apply Rmult_lt_0_compat; lra. }
  assert (Hpush : 0 < (F2 - F1) / (mc + mp))
    by (apply Rdiv_lt_0_compat; lra).
  assert (Hpos : 0 < (F2 - F1) / (mc + mp)
                     * (1 + mp * c ^ 2
                            / ((4 / 3 - mp * c ^ 2 / (mc + mp)) * (mc + mp))))
    by (apply Rmult_lt_0_compat; lra).
  lra.
Qed.

(** X19.  With [constrain = true], [min_bounds < max_bounds], physical masses
    and length, a positive time step and [cos_theta ^ 2 <= 1], the next cart
    velocity lies strictly between the next cart velocities that the
    unconstrained dynamics reach under the forces [min_bounds] and
    [max_bounds], whatever the raw control is. *)
Theorem saturated_velocity_bracketed {squashing : Squashing}
        (dt min_bounds max_bounds mc mp l g : R)
        (x x_dot sin_theta cos_theta theta_dot u : R) :
  0 < mc -> 0 < mp -> 0 < l -> 0 < dt -> cos_theta ^ 2 <= 1 ->
  min_bounds < max_bounds ->
  exists p s c v w vlo wlo vhi whi : R,
    AutoDiffDynamics.f
      (CartpoleDynamics.__init__ dt true min_bounds max_bounds mc mp l g)
      [x; x_dot; sin_theta; cos_theta; theta_dot] [u]
    = Ok [p; v; s; c; w]
    /\ AutoDiffDynamics.f
         (CartpoleDynamics.__init__ dt false min_bounds max_bounds mc mp l g)
         [x; x_dot; sin_theta; cos_theta; theta_dot] [min_bounds]
       = Ok [p; vlo; s; c; wlo]
    /\ AutoDiffDynamics.f
         (CartpoleDynamics.__init__ dt false min_bounds max_bounds mc mp l g)
         [x; x_dot; sin_theta; cos_theta; theta_dot] [max_bounds]
       = Ok [p; vhi; s; c; whi]
    /\ vlo < v < vhi.
Proof.
  intros Hmc Hmp Hl Hdt Hc Hbounds.
  rewrite !f_next_state. unfold Spec.next_state, Spec.effective_force.
  do 9 eexists. do 3 (split; [reflexivity |]).
  destruct (squash_interior u min_bounds max_bounds Hbounds) as [Hlo Hhi].
  pose proof (x_dot_dot_increasing mc mp l g sin_theta cos_theta theta_dot
                _ _ Hmc Hmp Hl Hc Hlo) as Hbelow.
  pose proof (x_dot_dot_increasing mc mp l g sin_theta cos_theta theta_dot
                _ _ Hmc Hmp Hl Hc Hhi) as Habove.
  split; apply Rplus_lt_compat_l, Rmult_lt_compat_r; assumption.
Qed.

Lemma saturated_velocity_bracketed_witness :
  exists p s c v w vlo wlo vhi whi : R,
    AutoDiffDynamics.f
      (CartpoleDynamics.__init__ (squashing := tanh_squashing)
         (1 / 100) true (- 1) 1 1 (1 / 10) 1 (980665 / 100000))
      [0; 0; 0; 1; 0] [100]
    = Ok [p; v; s; c; w]
    /\ AutoDiffDynamics.f
         (CartpoleDynamics.__init__ (squashing := tanh_squashing)
            (1 / 100) false (- 1) 1 1 (1 / 10) 1 (980665 / 100000))
         [0; 0; 0; 1; 0] [- 1]
       = Ok [p; vlo; s; c; wlo]
    /\ AutoDiffDynamics.f
         (CartpoleDynamics.__init__ (squashing := tanh_squashing)
            (1 / 100) false (- 1) 1 1 (1 / 10) 1 (980665 / 100000))
         [0; 0; 0; 1; 0] [1]
       = Ok [p; vhi; s; c; whi]
    /\ vlo < v < vhi.
Proof.
  apply (saturated_velocity_bracketed (squashing := tanh_squashing)
           (1 / 100) (- 1) 1 1 (1 / 10) 1 (980665 / 100000)
           0 0 0 1 0 100); lra.
Defined.
